(** * Deep Q-learning core of [algos/dqn.py]: replay store, value networks,
      action selection, loss and evaluation.

    Tensors of dtype float32 are lists of IEEE-754 binary32 values
    ([spec_float] with precision 24 and maximal exponent 128); Python floats
    are binary64 values.  Operations that raise in Python return [None]. *)

From Stdlib Require Import ZArith Floats.SpecFloat.
From stdpp Require Import base option list.

Set Default Proof Using "Type".

(** ** Floating-point numbers *)

Module F32.
Definition prec : Z := 24.
Definition emax : Z := 128.

Definition add : spec_float → spec_float → spec_float := SFadd prec emax.
Definition sub : spec_float → spec_float → spec_float := SFsub prec emax.
Definition mul : spec_float → spec_float → spec_float := SFmul prec emax.
Definition div : spec_float → spec_float → spec_float := SFdiv prec emax.

(** The binary32 value nearest to [m * 2^e]. *)
Definition of_Z2 (m e : Z) : spec_float := binary_normalize prec emax m e false.
Definition of_Z (m : Z) : spec_float := of_Z2 m 0.
Definition of_nat (n : nat) : spec_float := of_Z (Z.of_nat n).

Definition zero : spec_float := S754_zero false.
Definition one : spec_float := of_Z 1.
End F32.

Module F64.
Definition prec : Z := 53.
Definition emax : Z := 1024.

Definition add : spec_float → spec_float → spec_float := SFadd prec emax.
Definition div : spec_float → spec_float → spec_float := SFdiv prec emax.

Definition of_Z2 (m e : Z) : spec_float := binary_normalize prec emax m e false.
Definition of_Z (m : Z) : spec_float := of_Z2 m 0.

Definition zero : spec_float := S754_zero false.
End F64.

(** Element type of float tensors, and the type of Python floats. *)
Abbreviation f32 := spec_float (only parsing).
Abbreviation f64 := spec_float (only parsing).

Definition is_nan (x : spec_float) : bool :=
  match x with S754_nan => true | _ => false end.

Definition is_zero (x : spec_float) : bool :=
  match x with S754_zero _ => true | _ => false end.

(** Neither an infinity nor a NaN. *)
Definition is_finite (x : spec_float) : bool :=
  match x with S754_zero _ | S754_finite _ _ _ => true | _ => false end.

(** ** Replay store *)

(** One observation: a float tensor of the buffer's row shape, flattened. *)
Abbreviation state := (list spec_float) (only parsing).

(** The arguments of one [store] call; the reward is the binary32 value the
    float array receives. *)
Record transition := Transition {
  t_init_state : state;
  t_action : nat;
  t_reward : f32;
  t_next_state : state;
  t_next_terminal : bool
}.

Record ExperienceBuffer := {
  init_states : list state;
  actions : list nat;
  rewards : list f32;
  next_states : list state;
  non_terminal : list f32;
  size : nat;
  full : bool;
  i : nat
}.

(** Number of scalars in a tensor of the given shape. *)
Definition numel (shape : list nat) : nat := foldr Nat.mul 1 shape.

(** [ExperienceBuffer.__init__]: five zero-filled arrays of [size] rows. *)
Definition ExperienceBuffer_init (size : nat) (state_size : list nat)
    : ExperienceBuffer :=
  {| init_states := replicate size (replicate (numel state_size) F32.zero);
     actions := replicate size 0;
     rewards := replicate size F32.zero;
     next_states := replicate size (replicate (numel state_size) F32.zero);
     non_terminal := replicate size F32.zero;
     size := size;
     full := false;
     i := 0 |}.

(** [xs[k] = x]: indexing past the end raises. *)
Definition set_at {A} (xs : list A) (k : nat) (x : A) : option (list A) :=
  if decide (k < length xs) then Some (<[k := x]> xs) else None.

(** [int(not next_terminal)] as written into the float array. *)
Definition non_terminal_flag (next_terminal : bool) : f32 :=
  if next_terminal then F32.zero else F32.one.

(** [ExperienceBuffer.store]; [None] is the failed assertion (or an index
    error of one of the five writes). *)
Definition store (b : ExperienceBuffer) (t : transition)
    : option ExperienceBuffer :=
  if decide (i b < size b) then
    init_states' ← set_at (init_states b) (i b) (t_init_state t);
    actions' ← set_at (actions b) (i b) (t_action t);
    rewards' ← set_at (rewards b) (i b) (t_reward t);
    next_states' ← set_at (next_states b) (i b) (t_next_state t);
    non_terminal' ← set_at (non_terminal b) (i b)
                      (non_terminal_flag (t_next_terminal t));
    let i' := i b + 1 in
    Some {| init_states := init_states';
            actions := actions';
            rewards := rewards';
            next_states := next_states';
            non_terminal := non_terminal';
            size := size b;
            full := if decide (i' = size b) then true else full b;
            i := if decide (i' = size b) then 0 else i' |}
  else None.

(** A sequence of [store] calls, oldest first. *)
Definition store_all (b : ExperienceBuffer) (ts : list transition)
    : option ExperienceBuffer :=
  foldl (λ ob t, ob ≫= λ b', store b' t) (Some b) ts.

(** Number of valid entries: [len(indexes)] in [sample]. *)
Definition valid_count (b : ExperienceBuffer) : nat :=
  if full b then size b else i b.

(** The row of the buffer at index [k], when all five arrays have one. *)
Definition entry (b : ExperienceBuffer) (k : nat)
    : option (state * nat * f32 * state * f32) :=
  s ← init_states b !! k;
  a ← actions b !! k;
  r ← rewards b !! k;
  s' ← next_states b !! k;
  nt ← non_terminal b !! k;
  Some (s, a, r, s', nt).

(** What [store] writes for a transition. *)
Definition row_of (t : transition) : state * nat * f32 * state * f32 :=
  (t_init_state t, t_action t, t_reward t, t_next_state t,
   non_terminal_flag (t_next_terminal t)).

(** ** Random sources

    The generator state is the stream of raw words still to be drawn; Python's
    [random] module and NumPy's global generator each own one such state. *)

Definition rng : Type := nat → N.

Definition rng_next (g : rng) : N * rng := (g 0, λ n, g (S n)).

(** An index below [n] (for [n > 0]). *)
Definition randbelow (n : nat) (g : rng) : nat * rng :=
  let '(w, g') := rng_next g in (N.to_nat (w mod N.of_nat n), g').

(** [random.random()]: a multiple of [2^-53] in [[0, 1)]. *)
Definition random_random (g : rng) : f64 * rng :=
  let '(w, g') := rng_next g in
  (F64.of_Z2 (Z.of_N (w mod 2 ^ 53)) (-53), g').

(** [random.choice(range(n))]; an empty range raises. *)
Definition random_choice_range (n : nat) (g : rng) : option (nat * rng) :=
  if decide (n = 0) then None else Some (randbelow n g).

(** [k] draws from [pool], each drawn element leaving the pool. *)
Fixpoint draw_distinct (pool : list nat) (k : nat) (g : rng)
    : list nat * rng :=
  match k with
  | 0 => ([], g)
  | S k' =>
      let '(j, g1) := randbelow (length pool) g in
      match pool !! j with
      | Some x =>
          let '(rest, g2) := draw_distinct (delete j pool) k' g1 in
          (x :: rest, g2)
      | None => ([], g1)
      end
  end.

(** [np.random.choice(a, size=size, replace=False)]: a sample of [size]
    positions of [a] without replacement; asking for more than the population
    raises.  An empty population is accepted when no sample is taken. *)
Definition np_random_choice (a : list nat) (size : nat) (g : rng)
    : option (list nat * rng) :=
  if decide (size ≤ length a) then Some (draw_distinct a size g) else None.

(** [xs[idx]] for an index array [idx]; an index past the end raises. *)
Definition gather {A} (xs : list A) (idx : list nat) : option (list A) :=
  mapM (λ j, xs !! j) idx.

(** The dictionary returned by [sample]. *)
Record batch := {
  b_init_states : list state;
  b_actions : list nat;
  b_rewards : list f32;
  b_next_states : list state;
  b_non_terminal : list f32
}.

(** The index array [chosen] of [sample] (its first three statements). *)
Definition sample_chosen (b : ExperienceBuffer) (batch_size : nat) (g : rng)
    : option (list nat * rng) :=
  let indexes := if full b then seq 0 (size b) else seq 0 (i b) in
  let batch_size := batch_size `min` length indexes in
  np_random_choice indexes batch_size g.

(** [ExperienceBuffer.sample]. *)
Definition sample (b : ExperienceBuffer) (batch_size : nat) (g : rng)
    : option (batch * rng) :=
  '(chosen, g') ← sample_chosen b batch_size g;
  ss ← gather (init_states b) chosen;
  acts ← gather (actions b) chosen;
  rs ← gather (rewards b) chosen;
  ss' ← gather (next_states b) chosen;
  nts ← gather (non_terminal b) chosen;
  Some ({| b_init_states := ss;
           b_actions := acts;
           b_rewards := rs;
           b_next_states := ss';
           b_non_terminal := nts |}, g').

(** ** Value networks *)

(** A learned affine layer ([nn.Linear], [nn.Conv2d]) with its current
    parameters, acting on one flattened row. *)
Definition Layer : Type := list f32 → list f32.

(** Rectifier on one scalar: values at or below zero become zero, a NaN is
    passed through. *)
Definition relu (x : f32) : f32 :=
  if SFleb x F32.zero then F32.zero else x.

(** A fully-connected layer from a weight matrix (one row per output) and a
    bias, products accumulated left to right. *)
Definition dot (w x : list f32) : f32 :=
  foldl F32.add F32.zero (zip_with F32.mul w x).

Definition linear (weight : list (list f32)) (bias : list f32) : Layer :=
  λ x, zip_with F32.add ((λ w, dot w x) <$> weight) bias.

Module QNetwork.
(** [fc1] is [nn.Linear(in_dim, 32)], [fc2] is [nn.Linear(32, out_dim)]. *)
Record t := { fc1 : Layer; fc2 : Layer }.

Definition forward (net : t) (x : state) : list f32 :=
  let out := fc1 net x in
  let out := relu <$> out in
  let out := fc2 net out in
  out.
End QNetwork.

Module QNetworkAtari.
Record t := {
  out_dim : nat;
  conv1 : Layer;
  conv2 : Layer;
  fc1 : Layer;
  fc2 : Layer
}.

(** [permute(0, 3, 1, 2)] on one row: height x width x channel order to
    channel x height x width order. *)
Definition permute_hwc_chw (h w c : nat) (x : list f32) : list f32 :=
  ci ← seq 0 c; hi ← seq 0 h; wi ← seq 0 w;
  [default F32.zero (x !! ((hi * w + wi) * c + ci))].

(** One row of [forward]'s batch; on a flattened row [torch.flatten] changes
    nothing. *)
Definition forward (net : t) (x : state) : list f32 :=
  let x := permute_hwc_chw 84 84 4 x in
  let x := (λ v, F32.div v (F32.of_Z 256)) <$> x in
  let x := relu <$> conv1 net x in
  let x := relu <$> conv2 net x in
  let x := relu <$> fc1 net x in
  let x := relu <$> fc2 net x in
  x.
End QNetworkAtari.

(** The network a learner holds: one of the two variants, behind the one
    [forward] operation. *)
Inductive network :=
  | Vector (net : QNetwork.t)
  | Visual (net : QNetworkAtari.t).

Definition forward (n : network) (x : state) : list f32 :=
  match n with
  | Vector net => QNetwork.forward net x
  | Visual net => QNetworkAtari.forward net x
  end.

(** ** Maximum and argmax of a row *)

(** [x] replaces the running best [best]: it is a NaN where [best] is not, or
    strictly greater.  Equal values keep the earlier position. *)
Definition beats (x best : f32) : bool :=
  if is_nan best then false
  else if is_nan x then true
  else SFltb best x.

Fixpoint argmax_from (best_i : nat) (best : f32) (k : nat) (row : list f32)
    : nat :=
  match row with
  | [] => best_i
  | x :: row' =>
      if beats x best then argmax_from k x (S k) row'
      else argmax_from best_i best (S k) row'
  end.

(** [torch.argmax] of a one-dimensional tensor; an empty one raises. *)
Definition argmax (row : list f32) : option nat :=
  match row with
  | [] => None
  | x :: row' => Some (argmax_from 0 x 1 row')
  end.

(** The value component of [torch.max(_, dim=1)] on one row. *)
Definition row_max (row : list f32) : option f32 :=
  match row with
  | [] => None
  | x :: row' => Some (foldl (λ best y, if beats y best then y else best) x row')
  end.

(** [best] is a maximum of [row]: it occurs in it and no entry is greater;
    a NaN occurs in [row] only if [best] is one. *)
Definition is_maximum (row : list f32) (best : f32) : Prop :=
  best ∈ row ∧
  ∀ v, v ∈ row →
    SFltb best v = false ∧ (is_nan v = true → is_nan best = true).

(** ** Gradient bookkeeping

    Every tensor produced from one that requires gradients records the
    operation that made it and the graph nodes of its operands; the backward
    pass follows these records down to the parameters. *)

Inductive op :=
  | ModuleForward
  | MaxBackward
  | MulBackward
  | AddBackward
  | SumBackward
  | MseLossBackward.

#[warnings="-register-all"]
Inductive grad_fn :=
  | AccumulateGrad
  | Backward (f : op) (next_functions : list (option grad_fn)).

(** A tensor: its values, and its graph node when it requires gradients. *)
Record tensor (A : Type) := Tensor {
  data : A;
  node : option grad_fn
}.
Arguments Tensor {A} _ _.
Arguments data {A} _.
Arguments node {A} _.

Definition requires_grad {A} (x : tensor A) : bool := bool_decide (is_Some (node x)).

(** Values that carry no graph: the arrays of the replay store. *)
Definition constant {A} (x : A) : tensor A := Tensor x None.

(** The node recorded for an operation [f] on the given operands. *)
Definition record_op (f : op) (operands : list (option grad_fn))
    : option grad_fn :=
  if existsb (λ o, bool_decide (is_Some o)) operands
  then Some (Backward f operands) else None.

(** The backward pass from this node reaches the network parameters. *)
Fixpoint reaches_parameters (n : grad_fn) : bool :=
  match n with
  | AccumulateGrad => true
  | Backward _ next =>
      existsb (λ o, match o with
                    | Some n' => reaches_parameters n'
                    | None => false
                    end) next
  end.

(** Element-wise binary operation on tensors of one length. *)
Definition zip_exact {A B C} (f : A → B → C) (xs : list A) (ys : list B)
    : option (list C) :=
  if decide (length xs = length ys) then Some (zip_with f xs ys) else None.

(** ** The learner *)

(** The discount [gamma] is held as the binary32 value the float tensors are
    multiplied by. *)
Record DQN := {
  qnet : network;
  num_actions : nat;
  exp_buf : ExperienceBuffer;
  gamma : f32;
  epoch_steps : nat;
  epoch : nat
}.

(** [self.qnet.forward] on a batch: the live parameters take part in the
    graph of the result. *)
Definition qnet_forward (d : DQN) (x : tensor (list state))
    : tensor (list (list f32)) :=
  Tensor (forward (qnet d) <$> data x)
         (Some (Backward ModuleForward [Some AccumulateGrad; node x])).

(** [DQN.choose_action]; [g] is the state of Python's generator. *)
Definition choose_action (d : DQN) (obs : state) (epsilon : f64) (g : rng)
    : option (nat * rng) :=
  let '(u, g1) := random_random g in
  if SFltb u epsilon then
    random_choice_range (num_actions d) g1
  else
    let qvals := forward (qnet d) obs in
    a ← argmax qvals;
    Some (a, g1).

(** [F.one_hot(actions, num_classes).float()]; a class outside the range
    raises. *)
Definition one_hot (acts : list nat) (num_classes : nat)
    : option (list (list f32)) :=
  mapM (λ a, if decide (a < num_classes)
             then Some ((λ c, if decide (c = a) then F32.one else F32.zero)
                          <$> seq 0 num_classes)
             else None) acts.

(** [nn.MSELoss()] with the default mean reduction. *)
Definition mse (qs ys : tensor (list f32)) : option (tensor f32) :=
  diffs ← zip_exact F32.sub (data qs) (data ys);
  let total := foldl F32.add F32.zero ((λ x, F32.mul x x) <$> diffs) in
  Some (Tensor (F32.div total (F32.of_nat (length diffs)))
               (record_op MseLossBackward [node qs; node ys])).

(** The bootstrap targets [ys] of [qnet_loss] for a sampled batch. *)
Definition bootstrap_targets (d : DQN) (s : batch) : option (tensor (list f32)) :=
  let nextqs := qnet_forward d (constant (b_next_states s)) in
  maxq_data ← mapM row_max (data nextqs);
  let maxq := Tensor maxq_data (record_op MaxBackward [node nextqs]) in
  let nt := constant (b_non_terminal s) in
  let nt_gamma :=
    Tensor ((λ x, F32.mul x (gamma d)) <$> data nt)
           (record_op MulBackward [node nt]) in
  prod ← zip_exact F32.mul (data nt_gamma) (data maxq);
  let discounted := Tensor prod (record_op MulBackward [node nt_gamma; node maxq]) in
  let rs := constant (b_rewards s) in
  sums ← zip_exact F32.add (data rs) (data discounted);
  Some (Tensor sums (record_op AddBackward [node rs; node discounted])).

(** The predictions [qs] of [qnet_loss] for a sampled batch. *)
Definition predicted (d : DQN) (s : batch) : option (tensor (list f32)) :=
  mask ← one_hot (b_actions s) (num_actions d);
  let action_mask := constant mask in
  let all_qs := qnet_forward d (constant (b_init_states s)) in
  rows ← mapM (λ p, zip_exact F32.mul p.1 p.2) (zip (data action_mask) (data all_qs));
  let masked := Tensor rows (record_op MulBackward [node action_mask; node all_qs]) in
  Some (Tensor (foldl F32.add F32.zero <$> data masked)
               (record_op SumBackward [node masked])).

(** The intermediate tensors of one [qnet_loss] call. *)
Record loss_parts := {
  lp_batch : batch;
  lp_ys : tensor (list f32);
  lp_qs : tensor (list f32);
  lp_loss : tensor f32
}.

Definition qnet_loss_parts (d : DQN) (g : rng) : option (loss_parts * rng) :=
  '(s, g') ← sample (exp_buf d) 100 g;
  ys ← bootstrap_targets d s;
  qs ← predicted d s;
  loss ← mse qs ys;
  Some ({| lp_batch := s; lp_ys := ys; lp_qs := qs; lp_loss := loss |}, g').

(** [DQN.qnet_loss]; [g] is the state of NumPy's generator. *)
Definition qnet_loss (d : DQN) (g : rng) : option (tensor f32 * rng) :=
  '(parts, g') ← qnet_loss_parts d g;
  Some (lp_loss parts, g').

(** ** The evaluation driver *)

(** The environment collaborator: [reset], [step] and [render] over its own
    state. *)
Record Env := {
  env_state : Type;
  env_reset : env_state → state * env_state;
  env_step : env_state → nat → state * f64 * bool * env_state;
  env_render : env_state → env_state
}.

(** The hard-wired exploration rate [0.05] as a Python float. *)
Definition eps_0_05 : f64 := F64.div (F64.of_Z 5) (F64.of_Z 100).

(** The [while not done] loop of one evaluation episode; [first] is
    [render and not i].  [fuel] bounds the number of environment steps. *)
Fixpoint eval_episode (E : Env) (d : DQN) (fuel : nat) (first : bool)
    (obs : state) (tot_rew : f64) (e : env_state E) (g : rng)
    : option (f64 * env_state E * rng) :=
  match fuel with
  | 0 => None
  | S fuel' =>
      '(act, g1) ← choose_action d obs eps_0_05 g;
      let '(obs', rew, done, e1) := env_step E e act in
      let tot_rew' := F64.add tot_rew rew in
      let e2 := if first then env_render E e1 else e1 in
      if done then Some (tot_rew', e2, g1)
      else eval_episode E d fuel' first obs' tot_rew' e2 g1
  end.

(** The [for i in range(times)] loop, over the remaining values of [i]. *)
Fixpoint eval_episodes (E : Env) (d : DQN) (fuel : nat) (render : bool)
    (iters : list nat) (rews : list f64) (e : env_state E) (g : rng)
    : option (list f64 * env_state E * rng) :=
  match iters with
  | [] => Some (rews, e, g)
  | k :: iters' =>
      let '(obs, e0) := env_reset E e in
      let first := render && bool_decide (k = 0) in
      let e1 := if first then env_render E e0 else e0 in
      '(tot_rew, e2, g1) ← eval_episode E d fuel first obs F64.zero e1 g;
      eval_episodes E d fuel render iters' (rews ++ [tot_rew]) e2 g1
  end.

(** Python's [max] of a list of floats; an empty list raises. *)
Definition py_max (xs : list f64) : option f64 :=
  match xs with
  | [] => None
  | x :: xs' => Some (foldl (λ m y, if SFltb m y then y else m) x xs')
  end.

(** [DQN.evaluate].  [mean] is [statistics.mean]; [fuel] bounds the steps of
    each episode. *)
Definition evaluate (E : Env) (mean : list f64 → option f64) (d : DQN)
    (fuel : nat) (times : nat) (epsilon : f64) (render : bool)
    (e : env_state E) (g : rng)
    : option (f64 * f64 * env_state E * rng) :=
  '(rews, e', g') ← eval_episodes E d fuel render (seq 0 times) [] e g;
  m ← mean rews;
  mx ← py_max rews;
  Some (m, mx, e', g').

(** ** Invariant of the replay store *)

(** Row [p] of a sampled batch, when all five arrays have one. *)
Definition batch_row (s : batch) (p : nat)
    : option (state * nat * f32 * state * f32) :=
  x ← b_init_states s !! p;
  a ← b_actions s !! p;
  r ← b_rewards s !! p;
  x' ← b_next_states s !! p;
  nt ← b_non_terminal s !! p;
  Some (x, a, r, x', nt).

(** Number of rows of a batch whose five arrays agree on it. *)
Definition batch_rows (s : batch) (n : nat) : Prop :=
  length (b_init_states s) = n ∧ length (b_actions s) = n ∧
  length (b_rewards s) = n ∧ length (b_next_states s) = n ∧
  length (b_non_terminal s) = n.

(** A transition of which only the reward matters: empty observations,
    action [0], not terminal. *)
Definition reward_only (r : Z) : transition :=
  Transition [] 0 (F32.of_Z r) [] false.

(** All five arrays have [size] rows. *)
Definition shape_ok (b : ExperienceBuffer) : Prop :=
  length (init_states b) = size b ∧ length (actions b) = size b ∧
  length (rewards b) = size b ∧ length (next_states b) = size b ∧
  length (non_terminal b) = size b.

(** The representation invariant of the store: the cursor is inside the
    arrays (or the store has no rows at all). *)
Definition wf (b : ExperienceBuffer) : Prop :=
  shape_ok b ∧ i b ≤ size b ∧ (i b = size b → size b = 0).

(** The buffer after writing [t] at the cursor and advancing. *)
Definition stored (b : ExperienceBuffer) (t : transition) : ExperienceBuffer :=
  {| init_states := <[i b := t_init_state t]> (init_states b);
     actions := <[i b := t_action t]> (actions b);
     rewards := <[i b := t_reward t]> (rewards b);
     next_states := <[i b := t_next_state t]> (next_states b);
     non_terminal := <[i b := non_terminal_flag (t_next_terminal t)]> (non_terminal b);
     size := size b;
     full := if decide (i b + 1 = size b) then true else full b;
     i := if decide (i b + 1 = size b) then 0 else i b + 1 |}.

Arguments stored : simpl never.

(** The graph recorded for the bootstrap targets: an addition whose second
    operand is a product whose second operand is the row maximum of a
    forward pass over the live parameters. *)
Definition targets_node : grad_fn :=
  Backward AddBackward
    [None;
     Some (Backward MulBackward
       [None;
        Some (Backward MaxBackward
          [Some (Backward ModuleForward [Some AccumulateGrad; None])])])].

(** The graph recorded for the predictions: a row sum of the masked forward
    pass over the live parameters. *)
Definition predicted_node : grad_fn :=
  Backward SumBackward
    [Some (Backward MulBackward
       [None; Some (Backward ModuleForward [Some AccumulateGrad; None])])].

(** ** Concrete instances used to exercise the statements *)

(** A generator state. *)
Definition example_rng : rng := λ n, N.of_nat (5 * n + 3).

(** A store of capacity 3 holding two transitions. *)
Definition example_buffer : ExperienceBuffer :=
  stored (stored (ExperienceBuffer_init 3 []) (reward_only 1)) (reward_only 2).


(** A vector-variant network on one-dimensional observations: of the 32
    hidden units the first has weight 1 and the others weight 0; output [k]
    has weight [w2 !! k] on the first hidden unit and 0 on the others; all
    biases are zero. *)
Definition tiny_net (w2 : list f32) : QNetwork.t :=
  {| QNetwork.fc1 :=
       linear ([F32.one] :: replicate 31 [F32.zero]) (replicate 32 F32.zero);
     QNetwork.fc2 :=
       linear ((λ w, w :: replicate 31 F32.zero) <$> w2)
              (replicate (length w2) F32.zero) |}.

(** A learner over a store of capacity 1 holding the single transition [t]. *)
Definition tiny_dqn (w2 : list f32) (discount : f32) (t : transition) : DQN :=
  {| qnet := Vector (tiny_net w2);
     num_actions := length w2;
     exp_buf := stored (ExperienceBuffer_init 1 [1]) t;
     gamma := discount;
     epoch_steps := 1000;
     epoch := 0 |}.

(** Discount 0.5, reward 1, not terminal, next-state values [5; 10]. *)
Definition dqn_half : DQN :=
  tiny_dqn [F32.of_Z 1; F32.of_Z 2] (F32.of_Z2 1 (-1))
    (Transition [F32.zero] 1 (F32.of_Z 1) [F32.of_Z 5] false).

(** Discount 0.99, reward 5, terminal; the output weight [2^127] is finite
    but its product with the next observation [2] overflows binary32. *)
Definition dqn_overflow : DQN :=
  tiny_dqn [F32.of_Z2 1 127; F32.of_Z 1] (F32.div (F32.of_Z 99) (F32.of_Z 100))
    (Transition [F32.zero] 1 (F32.of_Z 5) [F32.of_Z 2] true).

(** Discount 0.99, reward 5, terminal, next-state values [3; 7]. *)
Definition dqn_terminal : DQN :=
  tiny_dqn [F32.of_Z 3; F32.of_Z 7] (F32.div (F32.of_Z 99) (F32.of_Z 100))
    (Transition [F32.zero] 1 (F32.of_Z 5) [F32.of_Z 1] true).

(** The sign bit of a float, when it has one. *)
Definition sign_of (x : spec_float) : option bool :=
  match x with
  | S754_zero s | S754_infinity s | S754_finite s _ _ => Some s
  | S754_nan => None
  end.

(** A generator whose draws of [random.random()] are all 0.5 and whose
    draws of an index are even. *)
Definition rng_half : rng := λ n, (2 ^ 52 + 2 * N.of_nat n)%N.

(** An environment whose episodes last one step, always show the observation
    [5], and pay the index of the action taken. *)
Definition one_step_env : Env :=
  {| env_state := nat;
     env_reset := λ e, ([F32.of_Z 5], e);
     env_step := λ e act, ([F32.of_Z 5], F64.of_Z (Z.of_nat act), true, S e);
     env_render := λ e, e |}.

(** A stand-in for [statistics.mean]: sum over count in binary64. *)
Definition sum_over_count (xs : list f64) : option f64 :=
  match xs with
  | [] => None
  | _ => Some (F64.div (foldl F64.add F64.zero xs)
                       (F64.of_Z (Z.of_nat (length xs))))
  end.

(** ** Further definitions *)

(** The batch with no rows. *)
Definition empty_batch : batch :=
  {| b_init_states := []; b_actions := []; b_rewards := [];
     b_next_states := []; b_non_terminal := [] |}.

(** [y] is the value [x]: the same float, or both are zeros (whose signs
    may differ). *)
Definition same_value (x y : f32) : Prop :=
  y = x ∨ (is_zero x = true ∧ is_zero y = true).

(** Row [a] of the mask built by [one_hot], over the classes
    [start, start + n). *)
Definition mask_from (a start n : nat) : list f32 :=
  (λ c, if decide (c = a) then F32.one else F32.zero) <$> seq start n.

(** ** The training driver *)

(** The largest finite binary32 value, as a Python float. *)
Definition f32_max : f64 := F64.of_Z2 (2 ^ 24 - 1) 104.

(** A Python float as written into a float32 array: a finite value beyond
    the binary32 range raises; any other finite value is rounded to the
    nearest binary32 value; infinities and NaN are kept. *)
Definition f32_of_f64 (x : f64) : option f32 :=
  match x with
  | S754_finite s m e =>
      if SFltb f32_max (SFabs x) then None
      else Some (binary_round F32.prec F32.emax s m e)
  | _ => Some x
  end.

Definition with_exp_buf (d : DQN) (b : ExperienceBuffer) : DQN :=
  {| qnet := qnet d; num_actions := num_actions d; exp_buf := b;
     gamma := gamma d; epoch_steps := epoch_steps d; epoch := epoch d |}.

Definition with_qnet (d : DQN) (net : network) : DQN :=
  {| qnet := net; num_actions := num_actions d; exp_buf := exp_buf d;
     gamma := gamma d; epoch_steps := epoch_steps d; epoch := epoch d |}.

Definition with_epoch (d : DQN) (n : nat) : DQN :=
  {| qnet := qnet d; num_actions := num_actions d; exp_buf := exp_buf d;
     gamma := gamma d; epoch_steps := epoch_steps d; epoch := n |}.

(** The names under which scalars are sent to the writer. *)
Inductive scalar_tag := LossTag | MeanEvalReward | MaxEvalReward.

(** The optimizer collaborator: [zero_grad], [loss.backward()] and [step]
    for one loss computation give the network its next parameters. *)
Record Optimizer := {
  opt_state : Type;
  opt_update : opt_state → DQN → loss_parts → network * opt_state
}.

(** What a training run owns: the learner, the environment, the optimizer,
    the states of Python's and NumPy's generators, and the records sent to
    the writer by [add_scalar] (name, value, step), oldest first. *)
Record Trainer (E : Env) (O : Optimizer) := {
  tr_dqn : DQN;
  tr_env : env_state E;
  tr_opt : opt_state O;
  tr_py_rng : rng;
  tr_np_rng : rng;
  tr_log : list (scalar_tag * spec_float * nat)
}.
Arguments tr_dqn {E O} _.
Arguments tr_env {E O} _.
Arguments tr_opt {E O} _.
Arguments tr_py_rng {E O} _.
Arguments tr_np_rng {E O} _.
Arguments tr_log {E O} _.

(** The six [env.step(0)] calls after a reset; what they return is dropped. *)
Definition warm_up (E : Env) (e : env_state E) : env_state E :=
  Nat.iter 6 (λ e', (env_step E e' 0).2) e.

(** The body of the inner loop of [train_epoch] at step [i], from the
    observation [obs]: act, store, one optimizer update on a fresh loss, one
    record for the writer.  Returns the next observation and [done]. *)
Definition train_step (E : Env) (O : Optimizer) (i : nat) (obs : state)
    (st : Trainer E O) : option (state * bool * Trainer E O) :=
  let d := tr_dqn st in
  let init_obs := obs in
  '(act, g1) ← choose_action d obs eps_0_05 (tr_py_rng st);
  let '(obs', rew, done, e1) := env_step E (tr_env st) act in
  r ← f32_of_f64 rew;
  b' ← store (exp_buf d) (Transition init_obs act r obs' done);
  let d1 := with_exp_buf d b' in
  '(parts, g2) ← qnet_loss_parts d1 (tr_np_rng st);
  let '(net', o') := opt_update O (tr_opt st) d1 parts in
  let d2 := with_qnet d1 net' in
  let step_num := i + (epoch d - 1) * epoch_steps d in
  Some (obs', done,
        {| tr_dqn := d2; tr_env := e1; tr_opt := o';
           tr_py_rng := g1; tr_np_rng := g2;
           tr_log := tr_log st ++ [(LossTag, data (lp_loss parts), step_num)] |}).

(** The inner loop [while (not done) and (i < self.epoch_steps)], entered
    with [done = False]; [k] is [epoch_steps - i].  Returns the final [i]. *)
Fixpoint train_episode (E : Env) (O : Optimizer) (k i : nat) (obs : state)
    (st : Trainer E O) : option (nat * Trainer E O) :=
  match k with
  | 0 => Some (i, st)
  | S k' =>
      '(obs', done, st') ← train_step E O i obs st;
      if (done : bool) then Some (i + 1, st')
      else train_episode E O k' (i + 1) obs' st'
  end.

(** The outer loop [while i < self.epoch_steps]: reset, warm up, run one
    episode.  [fuel] bounds the number of episodes. *)
Fixpoint train_episodes (E : Env) (O : Optimizer) (fuel i : nat)
    (st : Trainer E O) : option (Trainer E O) :=
  if decide (i < epoch_steps (tr_dqn st)) then
    match fuel with
    | 0 => None
    | S fuel' =>
        let '(obs, e0) := env_reset E (tr_env st) in
        let e1 := warm_up E e0 in
        let st0 := {| tr_dqn := tr_dqn st; tr_env := e1; tr_opt := tr_opt st;
                      tr_py_rng := tr_py_rng st; tr_np_rng := tr_np_rng st;
                      tr_log := tr_log st |} in
        '(i', st') ← train_episode E O (epoch_steps (tr_dqn st) - i) i obs st0;
        train_episodes E O fuel' i' st'
    end
  else Some st.

(** [DQN.train_epoch]: the epoch counter goes up, [epoch_steps] training
    steps are taken (every episode takes at least one, so [epoch_steps]
    episodes are enough fuel), then [evaluate()] runs with its defaults and
    its two results go to the writer.  [eval_fuel] bounds the steps of each
    evaluation episode. *)
Definition train_epoch (E : Env) (O : Optimizer)
    (mean : list f64 → option f64) (eval_fuel : nat) (st : Trainer E O)
    : option (Trainer E O) :=
  let d := with_epoch (tr_dqn st) (epoch (tr_dqn st) + 1) in
  let st0 := {| tr_dqn := d; tr_env := tr_env st; tr_opt := tr_opt st;
                tr_py_rng := tr_py_rng st; tr_np_rng := tr_np_rng st;
                tr_log := tr_log st |} in
  st1 ← train_episodes E O (epoch_steps d) 0 st0;
  '(m, mx, e', g') ← evaluate E mean (tr_dqn st1) eval_fuel 20 eps_0_05 true
                       (tr_env st1) (tr_py_rng st1);
  Some {| tr_dqn := tr_dqn st1; tr_env := e'; tr_opt := tr_opt st1;
          tr_py_rng := g'; tr_np_rng := tr_np_rng st1;
          tr_log := tr_log st1
                    ++ [(MeanEvalReward, m, epoch (tr_dqn st1));
                        (MaxEvalReward, mx, epoch (tr_dqn st1))] |}.

(** What a training step needs of the learner: a well-formed store with
    room, at least one action, a network with one value per action, and
    only actions below [num_actions] in the store. *)
Definition trainable (d : DQN) : Prop :=
  wf (exp_buf d) ∧ 0 < size (exp_buf d) ∧ 0 < num_actions d
  ∧ (∀ x, length (forward (qnet d) x) = num_actions d)
  ∧ Forall (λ a, a < num_actions d) (actions (exp_buf d)).

(** What the training loop needs of the environment: observations of
    [n_obs] scalars (the row shape of the store) and, for the actions the
    learner can choose, rewards that a float32 array accepts. *)
Definition env_fits (E : Env) (n_obs n_act : nat) : Prop :=
  (∀ e, length (env_reset E e).1 = n_obs)
  ∧ ∀ e a, a < n_act →
      length (env_step E e a).1.1.1 = n_obs
      ∧ is_Some (f32_of_f64 (env_step E e a).1.1.2).

(** All observation rows of the store hold [n_obs] scalars. *)
Definition rows_shaped (n_obs : nat) (b : ExperienceBuffer) : Prop :=
  Forall (λ r, length r = n_obs) (init_states b)
  ∧ Forall (λ r, length r = n_obs) (next_states b).

(** The optimizer changes parameters, not the number of outputs. *)
Definition keeps_width (O : Optimizer) : Prop :=
  ∀ o d parts,
    (∀ x, length (forward (qnet d) x) = num_actions d) →
    ∀ x, length (forward (opt_update O o d parts).1 x) = num_actions d.

(** [st'] is [st] after [n] training steps numbered from [first]: the
    settings are those of [st], the store has taken [n] transitions, and
    the writer has received [n] loss records, with consecutive step numbers
    offset by the steps of the earlier epochs. *)
Definition trained {E O} (st st' : Trainer E O) (first n : nat) : Prop :=
  let d := tr_dqn st in
  let d' := tr_dqn st' in
  epoch d' = epoch d ∧ epoch_steps d' = epoch_steps d
  ∧ num_actions d' = num_actions d ∧ gamma d' = gamma d
  ∧ size (exp_buf d') = size (exp_buf d)
  ∧ i (exp_buf d') = (i (exp_buf d) + n) mod size (exp_buf d)
  ∧ valid_count (exp_buf d') = (valid_count (exp_buf d) + n) `min` size (exp_buf d)
  ∧ ∃ new, tr_log st' = tr_log st ++ new
         ∧ (λ r, (r.1.1, r.2)) <$> new
           = (λ j, (LossTag, j + (epoch d - 1) * epoch_steps d)) <$> seq first n.

(** An optimizer that leaves the network as it is, and a training state
    over the one-step environment. *)
Definition idle_optimizer : Optimizer :=
  {| opt_state := unit; opt_update := λ o d _, (qnet d, o) |}.

Definition example_trainer : Trainer one_step_env idle_optimizer :=
  {| tr_dqn := {| qnet := Vector (tiny_net [F32.of_Z 1; F32.of_Z 2]);
                  num_actions := 2;
                  exp_buf := ExperienceBuffer_init 2 [1];
                  gamma := F32.of_Z2 1 (-1);
                  epoch_steps := 3;
                  epoch := 0 |};
     tr_env := (0 : env_state one_step_env);
     tr_opt := (() : opt_state idle_optimizer); tr_py_rng := rng_half;
     tr_np_rng := example_rng; tr_log := [] |}.

(** A visual-variant network all of whose weights and biases are finite:
    the first convolution adds the bias 2, the second multiplies by [2^127]
    (so that its output overflows binary32), and the last layer has the
    output weights 0 and 1. *)
Definition overflowing_atari : QNetworkAtari.t :=
  {| QNetworkAtari.out_dim := 2;
     QNetworkAtari.conv1 := linear [[F32.one]] [F32.of_Z 2];
     QNetworkAtari.conv2 := linear [[F32.of_Z2 1 127]] [F32.zero];
     QNetworkAtari.fc1 := linear [[F32.one]] [F32.zero];
     QNetworkAtari.fc2 := linear [[F32.zero]; [F32.one]] [F32.zero; F32.zero] |}.

(** A stack of four black 84 x 84 frames. *)
Definition black_frames : list f32 := replicate (84 * 84 * 4) F32.zero.
(** * Properties *)

(** ** The replay store is a ring *)

Lemma wf_init c sh : wf (ExperienceBuffer_init c sh).
Proof.
  unfold wf, shape_ok; simpl. rewrite !length_replicate. lia.
Qed.

Lemma store_stored b t :
  shape_ok b → i b < size b → store b t = Some (stored b t).
Proof.
  intros (H1 & H2 & H3 & H4 & H5) Hi. unfold store, set_at, stored.
  rewrite H1, H2, H3, H4, H5.
  rewrite !(decide_True (P := i b < size b)) by done. reflexivity.
Qed.

Lemma store_needs_room b t : ¬ i b < size b → store b t = None.
Proof. intros Hi. unfold store. by rewrite decide_False. Qed.

Lemma stored_wf b t : wf b → i b < size b → wf (stored b t).
Proof.
  intros ((H1 & H2 & H3 & H4 & H5) & Hle & Hz) Hi.
  unfold wf, shape_ok, stored; simpl. rewrite !length_insert.
  repeat split; try done; case_decide; lia.
Qed.

Lemma stored_entry_cursor b t :
  shape_ok b → i b < size b → entry (stored b t) (i b) = Some (row_of t).
Proof.
  intros (H1 & H2 & H3 & H4 & H5) Hi. unfold entry, stored, row_of; simpl.
  rewrite !list_lookup_insert_eq by lia. reflexivity.
Qed.

Lemma stored_entry_other b t k :
  k ≠ i b → entry (stored b t) k = entry b k.
Proof.
  intros Hk. unfold entry, stored; simpl.
  rewrite !list_lookup_insert_ne by done. reflexivity.
Qed.

Lemma stored_cursor b t :
  0 < size b → i b < size b → i (stored b t) = (i b + 1) mod size b.
Proof.
  intros Hc Hi. unfold stored; simpl. case_decide as Heq.
  - rewrite Heq. by rewrite Nat.Div0.mod_same.
  - rewrite Nat.mod_small; lia.
Qed.

Lemma store_all_snoc b ts t :
  store_all b (ts ++ [t]) = store_all b ts ≫= λ b', store b' t.
Proof. unfold store_all. by rewrite foldl_app. Qed.

Lemma mod_distinct_in_window c k n :
  k < n → n < k + c → k mod c ≠ n mod c.
Proof.
  intros Hkn Hnk Heq.
  assert (Hc : c ≠ 0) by lia.
  pose proof (Nat.div_mod_eq k c) as Hk.
  pose proof (Nat.div_mod_eq n c) as Hn.
  rewrite Heq in Hk.
  assert (n - k = c * (n `div` c - k `div` c)) as Hd by nia.
  destruct (decide (n `div` c - k `div` c = 0)) as [Hz|Hz]; [nia|].
  assert (c ≤ n - k) by nia. lia.
Qed.

(** State of the store after [n] stores into a fresh one of capacity [c]. *)
Lemma store_all_ring c sh ts :
  1 ≤ c →
  ∃ b, store_all (ExperienceBuffer_init c sh) ts = Some b
    ∧ wf b ∧ size b = c
    ∧ i b = length ts mod c
    ∧ full b = bool_decide (c ≤ length ts)
    ∧ ∀ k t, ts !! k = Some t → length ts ≤ k + c →
        entry b (k mod c) = Some (row_of t).
Proof.
  intros Hc. induction ts as [|t ts IH] using rev_ind.
  - exists (ExperienceBuffer_init c sh). simpl.
    split_and!; try done.
    + apply wf_init.
    + by rewrite Nat.Div0.mod_0_l.
    + symmetry. apply bool_decide_eq_false. lia.
  - destruct IH as (b & Hb & Hwf & Hsz & Hi & Hfull & Hent).
    assert (Hlt : i b < size b).
    { rewrite Hi, Hsz. apply Nat.mod_upper_bound. lia. }
    exists (stored b t). rewrite store_all_snoc, Hb. simpl.
    rewrite length_app; simpl.
    split_and!.
    + apply store_stored; [apply Hwf | done].
    + by apply stored_wf.
    + done.
    + pose proof (stored_cursor b t ltac:(lia) Hlt) as Hcur.
      unfold stored in Hcur; simpl in Hcur. rewrite Hcur, Hi, Hsz.
      by rewrite Nat.Div0.add_mod_idemp_l.
    + rewrite Hfull, Hsz.
      pose proof (Nat.div_mod_eq (length ts) c) as Hdm.
      rewrite Hi, Hsz in Hlt.
      destruct (decide (i b + 1 = c)) as [Hw|Hw].
      * symmetry. apply bool_decide_eq_true. rewrite Hi in Hw. lia.
      * rewrite Hi in Hw.
        destruct (decide (c ≤ length ts)) as [Hge|Hge].
        -- rewrite !bool_decide_eq_true_2; [done | lia | done].
        -- rewrite !bool_decide_eq_false_2; [done | | done].
           rewrite Nat.mod_small in Hw by lia. lia.
    + intros k t0 Hk Hwin.
      destruct (decide (k = length ts)) as [->|Hne].
      * rewrite lookup_app_r in Hk by lia.
        rewrite Nat.sub_diag in Hk. simpl in Hk. simplify_eq.
        rewrite <- Hi. apply stored_entry_cursor; [apply Hwf | done].
      * assert (k < length ts).
        { apply lookup_lt_Some in Hk. rewrite length_app in Hk. simpl in Hk. lia. }
        rewrite lookup_app_l in Hk by done.
        rewrite stored_entry_other.
        -- apply Hent; [done | lia].
        -- rewrite Hi. apply mod_distinct_in_window; lia.
Qed.

(** C3: on a store of capacity [c >= 1], every sequence of [store] calls
    succeeds; after [n] calls the cursor is [n mod c], [full] holds exactly
    when the cursor has wrapped ([c <= n]), the number of valid entries is
    [min n c], and each of the last [min n c] transitions sits, with all five
    fields, at index [k mod c] for its position [k] (ring order: older ones
    were overwritten).  One more [store] writes the five fields at the cursor
    and nowhere else, advances the cursor modulo [c] and raises [full] on the
    wrap.  With capacity 3, rewards 1, 2, 3, 4 leave [4; 2; 3] and
    [full = true]. *)
Theorem store_ring_order (c : nat) (sh : list nat) (ts : list transition) :
  1 ≤ c →
  (∃ b, store_all (ExperienceBuffer_init c sh) ts = Some b
     ∧ i b = length ts mod c
     ∧ full b = bool_decide (c ≤ length ts)
     ∧ valid_count b = length ts `min` c
     ∧ (∀ k t, ts !! k = Some t → length ts ≤ k + c →
          k mod c < valid_count b ∧ entry b (k mod c) = Some (row_of t))
     ∧ (∀ t, ∃ b', store b t = Some b'
          ∧ entry b' (i b) = Some (row_of t)
          ∧ (∀ k, k ≠ i b → entry b' k = entry b k)
          ∧ size b' = c
          ∧ i b' = (i b + 1) mod c
          ∧ full b' = full b || bool_decide (i b + 1 = c)))
  ∧ (∃ b, store_all (ExperienceBuffer_init 3 sh)
            (reward_only <$> [1; 2; 3; 4]%Z) = Some b
       ∧ rewards b = F32.of_Z <$> [4; 2; 3]%Z
       ∧ full b = true ∧ i b = 1 ∧ valid_count b = 3).
Proof.
  intros Hc. split.
  - destruct (store_all_ring c sh ts Hc) as (b & Hb & Hwf & Hsz & Hi & Hfull & Hent).
    assert (Hlt : i b < size b).
    { rewrite Hi, Hsz. apply Nat.mod_upper_bound. lia. }
    assert (Hvc : valid_count b = length ts `min` c).
    { unfold valid_count. rewrite Hfull, Hsz, Hi. case_bool_decide.
      - lia.
      - rewrite Nat.mod_small; lia. }
    exists b. split_and!; try done.
    + intros k t Hk Hwin. split; [|by apply Hent].
      rewrite Hvc. apply lookup_lt_Some in Hk.
      destruct (decide (c ≤ length ts)).
      * rewrite Nat.min_r by done. apply Nat.mod_upper_bound. lia.
      * rewrite Nat.mod_small by lia. lia.
    + intros t. exists (stored b t). split_and!.
      * apply store_stored; [apply Hwf | done].
      * apply stored_entry_cursor; [apply Hwf | done].
      * intros k Hk. by apply stored_entry_other.
      * done.
      * rewrite <- Hsz. apply stored_cursor; lia.
      * unfold stored; simpl. rewrite Hsz.
        destruct (decide (i b + 1 = c)).
        -- rewrite bool_decide_eq_true_2 by done. by rewrite orb_true_r.
        -- rewrite bool_decide_eq_false_2 by done. by rewrite orb_false_r.
  - exists (stored (stored (stored (stored (ExperienceBuffer_init 3 sh)
              (reward_only 1)) (reward_only 2)) (reward_only 3)) (reward_only 4)).
    split; by vm_compute.
Qed.

Lemma store_ring_order_witness :
  1 ≤ 3 ∧
  ∃ b, store_all (ExperienceBuffer_init 3 [4]) (reward_only <$> [1; 2; 3; 4]%Z)
       = Some b ∧ i b = 1 ∧ full b = true.
Proof.
  split; [lia|].
  destruct (store_ring_order 3 [4] (reward_only <$> [1; 2; 3; 4]%Z) ltac:(lia))
    as [(b & Hb & Hi & Hfull & _) _].
  exists b. split_and!; [exact Hb | exact Hi | exact Hfull].
Defined.

(** C9: in every state reachable from a fresh store of capacity [c >= 1] the
    cursor is below [c], so the assertion at the top of [store] holds and the
    next [store] succeeds, again leaving the cursor below [c]: any number of
    [store] calls goes through. *)
Theorem store_total (c : nat) (sh : list nat) (ts : list transition) :
  1 ≤ c →
  ∃ b, store_all (ExperienceBuffer_init c sh) ts = Some b
     ∧ size b = c ∧ i b < c
     ∧ ∀ t, ∃ b', store b t = Some b' ∧ size b' = c ∧ i b' < c.
Proof.
  intros Hc.
  destruct (store_all_ring c sh ts Hc) as (b & Hb & Hwf & Hsz & Hi & _).
  assert (Hlt : i b < c).
  { rewrite Hi. apply Nat.mod_upper_bound. lia. }
  exists b. split_and!; try done.
  intros t. exists (stored b t). split_and!.
  - apply store_stored; [apply Hwf | lia].
  - done.
  - pose proof (stored_cursor b t ltac:(lia) ltac:(lia)) as Hcur.
    rewrite Hcur, Hsz. apply Nat.mod_upper_bound. lia.
Qed.

Lemma store_total_witness :
  1 ≤ 2 ∧
  ∃ b, store_all (ExperienceBuffer_init 2 [4])
         (reward_only <$> [7; 8; 9]%Z) = Some b ∧ i b < 2.
Proof.
  split; [lia|].
  destruct (store_total 2 [4] (reward_only <$> [7; 8; 9]%Z) ltac:(lia))
    as (b & Hb & _ & Hi & _).
  exists b. split; [exact Hb | exact Hi].
Defined.

Lemma store_preserves_wf b t b' : wf b → store b t = Some b' → wf b'.
Proof.
  intros Hwf Hst. destruct (decide (i b < size b)) as [Hlt|Hge].
  - rewrite store_stored in Hst by (done || apply Hwf).
    injection Hst as <-. by apply stored_wf.
  - by rewrite store_needs_room in Hst.
Qed.

(** Every state reached by [store] calls from a well-formed one is
    well-formed. *)
Lemma store_all_wf b ts b' : wf b → store_all b ts = Some b' → wf b'.
Proof.
  revert b'. induction ts as [|t ts IH] using rev_ind; intros b' Hwf Hst.
  - by injection Hst as <-.
  - rewrite store_all_snoc in Hst.
    destruct (store_all b ts) as [b1|]; [|done]. simpl in Hst.
    eapply store_preserves_wf; [|done]. by apply IH.
Qed.

(** ** Sampling without replacement *)

Lemma randbelow_lt n g : 0 < n → (randbelow n g).1 < n.
Proof.
  intros Hn. unfold randbelow, rng_next; simpl.
  pose proof (N.mod_lt (g 0) (N.of_nat n)). lia.
Qed.

Lemma draw_distinct_spec pool k g :
  NoDup pool → k ≤ length pool →
  length (draw_distinct pool k g).1 = k
  ∧ NoDup (draw_distinct pool k g).1
  ∧ (draw_distinct pool k g).1 ⊆ pool.
Proof.
  revert pool g. induction k as [|k IH]; intros pool g Hnd Hk;
    cbn [draw_distinct].
  { simpl. split_and!; [done | constructor | apply list_subseteq_nil]. }
  pose proof (randbelow_lt (length pool) g ltac:(lia)) as Hj.
  destruct (randbelow (length pool) g) as [j g1]; simpl in Hj.
  destruct (lookup_lt_is_Some_2 pool j Hj) as [x Hx]. rewrite Hx.
  pose proof (delete_Permutation pool j x Hx) as Hperm.
  assert (Hnd' : NoDup (x :: delete j pool)) by by rewrite <- Hperm.
  apply NoDup_cons in Hnd' as [Hx_out Hnd'].
  assert (Hlen : k ≤ length (delete j pool)).
  { rewrite length_delete by eauto. lia. }
  destruct (IH (delete j pool) g1 Hnd' Hlen) as (Hl & Hn & Hsub).
  destruct (draw_distinct (delete j pool) k g1) as [rest g2]; simpl in *.
  split_and!.
  - by rewrite Hl.
  - apply NoDup_cons. split; [|done]. intros Hin. apply Hx_out. by apply Hsub.
  - intros y Hy. apply elem_of_cons in Hy as [->|Hy].
    + by eapply list_elem_of_lookup_2.
    + eapply list_elem_of_delete_inv. by apply Hsub.
Qed.

Lemma gather_spec {A} (xs : list A) (idx : list nat) :
  (∀ j, j ∈ idx → j < length xs) →
  ∃ ys, gather xs idx = Some ys
      ∧ length ys = length idx
      ∧ ∀ p j, idx !! p = Some j → ys !! p = xs !! j.
Proof.
  intros Hin.
  assert (is_Some (gather xs idx)) as [ys Hys].
  { apply mapM_is_Some_2, Forall_forall. intros j Hj; simpl.
    apply lookup_lt_is_Some_2. by apply Hin. }
  exists ys. split; [done|].
  apply mapM_Some_1 in Hys. split.
  - symmetry. by eapply Forall2_length.
  - intros p j Hp.
    destruct (Forall2_lookup_l _ _ _ _ _ Hys Hp) as (y & Hy & Hxy).
    by rewrite Hy, Hxy.
Qed.

(** The index array of [sample] on a well-formed store. *)
Lemma sample_chosen_spec b k g :
  wf b →
  ∃ chosen g', sample_chosen b k g = Some (chosen, g')
    ∧ length chosen = k `min` valid_count b
    ∧ NoDup chosen
    ∧ ∀ j, j ∈ chosen → j < valid_count b.
Proof.
  intros (Hshape & Hle & Hz). unfold sample_chosen.
  set (indexes := if full b then seq 0 (size b) else seq 0 (i b)).
  assert (Hidx : indexes = seq 0 (valid_count b)).
  { unfold indexes, valid_count. by destruct (full b). }
  rewrite Hidx, length_seq. unfold np_random_choice.
  rewrite decide_True by (rewrite length_seq; lia).
  destruct (draw_distinct_spec (seq 0 (valid_count b))
              (k `min` valid_count b) g) as (Hl & Hn & Hsub).
  { apply NoDup_seq. }
  { rewrite length_seq. lia. }
  destruct (draw_distinct _ _ g) as [chosen g']; simpl in *.
  exists chosen, g'. split_and!; try done.
  intros j Hj. apply Hsub, elem_of_seq in Hj. lia.
Qed.

(** [sample] on a well-formed store: it returns, and what it returns. *)
Lemma sample_spec b k g :
  wf b →
  ∃ chosen g' s,
    sample_chosen b k g = Some (chosen, g')
    ∧ sample b k g = Some (s, g')
    ∧ length chosen = k `min` valid_count b
    ∧ NoDup chosen
    ∧ (∀ j, j ∈ chosen → j < valid_count b)
    ∧ batch_rows s (k `min` valid_count b)
    ∧ ∀ p j, chosen !! p = Some j →
        is_Some (entry b j) ∧ batch_row s p = entry b j.
Proof.
  intros Hwf.
  destruct (sample_chosen_spec b k g Hwf) as (chosen & g' & Hch & Hlen & Hnd & Hin).
  destruct Hwf as ((H1 & H2 & H3 & H4 & H5) & Hle & Hz).
  assert (Hvc : valid_count b ≤ size b).
  { unfold valid_count. destruct (full b); lia. }
  destruct (gather_spec (init_states b) chosen) as (ss & Hss & Lss & Ess).
  { intros j Hj. apply Hin in Hj. lia. }
  destruct (gather_spec (actions b) chosen) as (acts & Hacts & Lacts & Eacts).
  { intros j Hj. apply Hin in Hj. lia. }
  destruct (gather_spec (rewards b) chosen) as (rs & Hrs & Lrs & Ers).
  { intros j Hj. apply Hin in Hj. lia. }
  destruct (gather_spec (next_states b) chosen) as (ss' & Hss' & Lss' & Ess').
  { intros j Hj. apply Hin in Hj. lia. }
  destruct (gather_spec (non_terminal b) chosen) as (nts & Hnts & Lnts & Ents).
  { intros j Hj. apply Hin in Hj. lia. }
  eexists chosen, g', _. split; [done|]. split.
  { unfold sample. rewrite Hch; simpl.
    rewrite Hss, Hacts, Hrs, Hss', Hnts; simpl. reflexivity. }
  split_and!; try done.
  - unfold batch_rows; simpl. rewrite Lss, Lacts, Lrs, Lss', Lnts, Hlen. done.
  - intros p j Hp.
    assert (Hj : j < size b).
    { assert (j ∈ chosen) by by eapply list_elem_of_lookup_2.
      apply Hin in H. lia. }
    split.
    + unfold entry.
      destruct (lookup_lt_is_Some_2 (init_states b) j ltac:(lia)) as [? ->].
      destruct (lookup_lt_is_Some_2 (actions b) j ltac:(lia)) as [? ->].
      destruct (lookup_lt_is_Some_2 (rewards b) j ltac:(lia)) as [? ->].
      destruct (lookup_lt_is_Some_2 (next_states b) j ltac:(lia)) as [? ->].
      destruct (lookup_lt_is_Some_2 (non_terminal b) j ltac:(lia)) as [? ->].
      simpl; eauto.
    + unfold batch_row, entry; simpl.
      by rewrite (Ess p j Hp), (Eacts p j Hp), (Ers p j Hp), (Ess' p j Hp),
        (Ents p j Hp).
Qed.

(** C4: on every well-formed store and for every batch size [k], [sample]
    returns; the index array it draws has exactly [min k valid_count]
    entries, pairwise distinct and all in the valid range (below [size] when
    [full], below [i] otherwise), and each of the five returned arrays has
    that many rows, row [p] of all five being the store's entry at the
    [p]-th drawn index. *)
Theorem sample_without_replacement (b : ExperienceBuffer) (k : nat) (g : rng) :
  wf b →
  ∃ chosen g' s,
    sample_chosen b k g = Some (chosen, g')
    ∧ sample b k g = Some (s, g')
    ∧ length chosen = k `min` valid_count b
    ∧ NoDup chosen
    ∧ (∀ j, j ∈ chosen → if full b then j < size b else j < i b)
    ∧ batch_rows s (k `min` valid_count b)
    ∧ ∀ p j, chosen !! p = Some j →
        is_Some (entry b j) ∧ batch_row s p = entry b j.
Proof.
  intros Hwf.
  destruct (sample_spec b k g Hwf)
    as (chosen & g' & s & Hch & Hs & Hlen & Hnd & Hin & Hrows & Halign).
  exists chosen, g', s. split_and!; try done.
  intros j Hj. apply Hin in Hj. unfold valid_count in Hj.
  by destruct (full b).
Qed.

Lemma example_buffer_wf : wf example_buffer.
Proof. unfold wf, shape_ok. vm_compute. repeat split; lia. Defined.

Lemma sample_without_replacement_witness :
  wf example_buffer ∧
  ∃ chosen g' s,
    sample_chosen example_buffer 5 example_rng = Some (chosen, g')
    ∧ sample example_buffer 5 example_rng = Some (s, g')
    ∧ length chosen = 2.
Proof.
  split; [exact example_buffer_wf|].
  destruct (sample_without_replacement example_buffer 5 example_rng
              example_buffer_wf)
    as (chosen & g' & s & Hc & Hs & Hl & _).
  exists chosen, g', s. split_and!; [exact Hc | exact Hs | exact Hl].
Defined.

(** C6: on every well-formed store, asking [sample] for more rows than there
    are valid entries does not raise: it returns a batch with exactly
    [valid_count] rows, also when [valid_count] is 0 (an empty batch). *)
Theorem sample_clamps (b : ExperienceBuffer) (k : nat) (g : rng) :
  wf b → valid_count b < k →
  ∃ s g', sample b k g = Some (s, g') ∧ batch_rows s (valid_count b).
Proof.
  intros Hwf Hk.
  destruct (sample_spec b k g Hwf) as (chosen & g' & s & _ & Hs & _ & _ & _ & Hrows & _).
  exists s, g'. split; [done|].
  by rewrite Nat.min_r in Hrows by lia.
Qed.

Lemma sample_clamps_witness :
  wf (ExperienceBuffer_init 3 [4])
  ∧ valid_count (ExperienceBuffer_init 3 [4]) < 100
  ∧ ∃ s g', sample (ExperienceBuffer_init 3 [4]) 100 example_rng = Some (s, g')
          ∧ batch_rows s 0.
Proof.
  split; [apply wf_init|]. split; [vm_compute; lia|].
  exact (sample_clamps (ExperienceBuffer_init 3 [4]) 100 example_rng
           (wf_init 3 [4]) ltac:(vm_compute; lia)).
Defined.

(** ** Bootstrap targets *)

Lemma zip_exact_Some {A B C} (f : A → B → C) xs ys :
  length xs = length ys → zip_exact f xs ys = Some (zip_with f xs ys).
Proof. intros H. unfold zip_exact. by rewrite decide_True. Qed.

Lemma row_max_is_Some row : row ≠ [] → is_Some (row_max row).
Proof. destruct row; [done | simpl; eauto]. Qed.

(** On a batch of [n] aligned rows and a network that yields at least one
    value per observation, the targets are computed, one per row, by the
    formula of the source, and they stay attached to the graph. *)
Lemma bootstrap_targets_spec d s n :
  batch_rows s n →
  (∀ x, x ∈ b_next_states s → forward (qnet d) x ≠ []) →
  ∃ ys, bootstrap_targets d s = Some ys
    ∧ length (data ys) = n
    ∧ node ys = Some targets_node
    ∧ ∀ p r nt x',
        b_rewards s !! p = Some r →
        b_non_terminal s !! p = Some nt →
        b_next_states s !! p = Some x' →
        ∃ m, row_max (forward (qnet d) x') = Some m
           ∧ data ys !! p
             = Some (F32.add r (F32.mul (F32.mul nt (gamma d)) m)).
Proof.
  intros (_ & _ & Lr & Ls & Lnt) Hnet.
  unfold bootstrap_targets, qnet_forward, constant; cbn [data node].
  assert (is_Some (mapM row_max (forward (qnet d) <$> b_next_states s))) as [maxq Hmaxq].
  { apply mapM_is_Some_2, Forall_fmap, Forall_forall. intros x Hx; simpl.
    by apply row_max_is_Some, Hnet. }
  rewrite Hmaxq; simpl.
  pose proof (mapM_Some_1 _ _ _ Hmaxq) as Hrows.
  pose proof (length_mapM _ _ _ Hmaxq) as Lmaxq. rewrite length_fmap in Lmaxq.
  rewrite zip_exact_Some by (rewrite length_fmap; lia). simpl.
  rewrite zip_exact_Some
    by (rewrite length_zip_with, length_fmap; lia). simpl.
  eexists. split; [reflexivity|]. simpl. split_and!.
  - rewrite !length_zip_with, length_fmap. lia.
  - reflexivity.
  - intros p r nt x' Hr Hnt Hx'.
    assert (Hq : (forward (qnet d) <$> b_next_states s) !! p = Some (forward (qnet d) x')).
    { by rewrite list_lookup_fmap, Hx'. }
    destruct (Forall2_lookup_l _ _ _ _ _ Hrows Hq) as (m & Hm & Hrm).
    exists m. split; [done|].
    rewrite !lookup_zip_with, list_lookup_fmap, Hr, Hnt, Hm. reflexivity.
Qed.

(** Multiplying by the zero indicator absorbs finite factors, and adding the
    resulting zero leaves the reward (up to the sign of a zero reward). *)
Lemma masked_target_is_reward (r γ m : f32) :
  is_finite γ = true → is_finite m = true →
  let y := F32.add r (F32.mul (F32.mul F32.zero γ) m) in
  y = r ∨ (is_zero r = true ∧ is_zero y = true).
Proof.
  intros Hγ Hm.
  destruct γ as [sγ|sγ| |sγ mγ eγ]; try discriminate;
    destruct m as [sm|sm| |sm mm em]; try discriminate;
    destruct r as [[]|[]| |sr mr er]; simpl;
    repeat match goal with s : bool |- _ => destruct s end; simpl; auto.
Qed.

(** An infinite or NaN next-state value is not absorbed. *)
Lemma masked_target_not_finite (r γ m : f32) :
  is_finite m = false →
  F32.add r (F32.mul (F32.mul F32.zero γ) m) = S754_nan.
Proof.
  intros Hm.
  destruct m as [sm|sm| |sm mm em]; try discriminate;
    destruct γ as [sγ|sγ| |sγ mγ eγ]; destruct r as [sr|sr| |sr mr er];
    reflexivity.
Qed.

(** ** Order on floats, maxima *)

Lemma SFltb_irrefl (a : f32) : SFltb a a = false.
Proof.
  unfold SFltb, SFcompare. destruct a as [[]|[]| |[] m e]; try done.
  - rewrite Z.compare_refl. change (Pos.compare_cont Eq m m) with (m ?= m)%positive.
    by rewrite Pos.compare_refl.
  - rewrite Z.compare_refl. change (Pos.compare_cont Eq m m) with (m ?= m)%positive.
    by rewrite Pos.compare_refl.
Qed.

Lemma SFltb_trans (a b c : f32) :
  SFltb a b = true → SFltb b c = true → SFltb a c = true.
Proof.
  unfold SFltb, SFcompare.
  destruct a as [[]|[]| |[] ma ea], b as [[]|[]| |[] mb eb],
    c as [[]|[]| |[] mc ec]; try done;
    change (Pos.compare_cont Eq) with Pos.compare;
    destruct (Z.compare_spec ea eb), (Z.compare_spec eb ec),
      (Z.compare_spec ea ec); try done; try lia; subst;
    destruct (Pos.compare_spec ma mb), (Pos.compare_spec mb mc),
      (Pos.compare_spec ma mc); try done; try lia.
Qed.

Lemma beats_irrefl x : beats x x = false.
Proof. unfold beats. destruct (is_nan x); [done | apply SFltb_irrefl]. Qed.

(** When [x] replaces [best], whatever did not beat [best] does not beat
    [x] either. *)
Lemma beats_replace x best v :
  beats x best = true → beats v best = false → beats v x = false.
Proof.
  unfold beats. destruct (is_nan best) eqn:Hb; [done|].
  destruct (is_nan x) eqn:Hx; [done|].
  destruct (is_nan v) eqn:Hv; [done|].
  intros Hbx Hbv. destruct (SFltb x v) eqn:Hxv; [|done].
  by rewrite (SFltb_trans best x v Hbx Hxv) in Hbv.
Qed.

Lemma beats_false_maximal v best :
  beats v best = false →
  SFltb best v = false ∧ (is_nan v = true → is_nan best = true).
Proof.
  unfold beats. destruct (is_nan best) eqn:Hb.
  - intros _. split; [|done]. by destruct best.
  - destruct (is_nan v); [done|]. intros ->. done.
Qed.

Lemma argmax_from_spec (pre row : list f32) (best_i : nat) (best : f32) :
  (pre ++ row) !! best_i = Some best →
  (∀ v, v ∈ pre → beats v best = false) →
  ∃ w, (pre ++ row) !! argmax_from best_i best (length pre) row = Some w
     ∧ ∀ v, v ∈ pre ++ row → beats v w = false.
Proof.
  revert pre best_i best. induction row as [|x row IH]; intros pre bi best Hb Hpre.
  - simpl. exists best. by rewrite app_nil_r in *.
  - simpl. destruct (beats x best) eqn:Hx.
    + destruct (IH (pre ++ [x]) (length pre) x) as (w & Hw & Hall).
      * rewrite <- app_assoc. simpl. by rewrite list_lookup_middle.
      * intros v Hv. apply elem_of_app in Hv as [Hv|Hv].
        -- eapply beats_replace; eauto.
        -- apply list_elem_of_singleton in Hv as ->. apply beats_irrefl.
      * rewrite length_app, Nat.add_1_r in Hw. rewrite <- app_assoc in Hw, Hall.
        exists w. eauto.
    + destruct (IH (pre ++ [x]) bi best) as (w & Hw & Hall).
      * by rewrite <- app_assoc.
      * intros v Hv. apply elem_of_app in Hv as [Hv|Hv]; [eauto|].
        by apply list_elem_of_singleton in Hv as ->.
      * rewrite length_app, Nat.add_1_r in Hw. rewrite <- app_assoc in Hw, Hall.
        exists w. eauto.
Qed.

(** [argmax] returns on a non-empty row, and what it returns is the position
    of a maximum. *)
Lemma argmax_spec (row : list f32) :
  row ≠ [] →
  ∃ a best, argmax row = Some a ∧ row !! a = Some best ∧ is_maximum row best.
Proof.
  destruct row as [|x row]; [done|]. intros _.
  destruct (argmax_from_spec [x] row 0 x) as (w & Hw & Hall).
  { done. }
  { intros v Hv. apply list_elem_of_singleton in Hv as ->. apply beats_irrefl. }
  simpl in Hw. exists (argmax_from 0 x 1 row), w. split_and!; [done | done |].
  split.
  - by eapply list_elem_of_lookup_2.
  - intros v Hv. by apply beats_false_maximal, Hall.
Qed.

Lemma row_max_fold_spec (pre row : list f32) (best : f32) :
  best ∈ pre →
  (∀ v, v ∈ pre → beats v best = false) →
  let w := foldl (λ best y, if beats y best then y else best) best row in
  w ∈ pre ++ row ∧ ∀ v, v ∈ pre ++ row → beats v w = false.
Proof.
  revert pre best. induction row as [|x row IH]; intros pre best Hin Hpre; simpl.
  - by rewrite app_nil_r.
  - destruct (beats x best) eqn:Hx.
    + destruct (IH (pre ++ [x]) x) as (Hw & Hall).
      * apply elem_of_app. right. by apply list_elem_of_singleton.
      * intros v Hv. apply elem_of_app in Hv as [Hv|Hv].
        -- eapply beats_replace; eauto.
        -- apply list_elem_of_singleton in Hv as ->. apply beats_irrefl.
      * rewrite <- app_assoc in Hw, Hall. eauto.
    + destruct (IH (pre ++ [x]) best) as (Hw & Hall).
      * apply elem_of_app. by left.
      * intros v Hv. apply elem_of_app in Hv as [Hv|Hv]; [eauto|].
        by apply list_elem_of_singleton in Hv as ->.
      * rewrite <- app_assoc in Hw, Hall. eauto.
Qed.

(** What [row_max] returns is a maximum of the row. *)
Lemma row_max_spec (row : list f32) (m : f32) :
  row_max row = Some m → is_maximum row m.
Proof.
  destruct row as [|x row]; [done|]. simpl. intros [= <-].
  destruct (row_max_fold_spec [x] row x) as (Hw & Hall).
  { by apply list_elem_of_singleton. }
  { intros v Hv. apply list_elem_of_singleton in Hv as ->. apply beats_irrefl. }
  split; [done|]. intros v Hv. by apply beats_false_maximal, Hall.
Qed.

Lemma entry_Some_inv b j x a r x' nt :
  entry b j = Some (x, a, r, x', nt) →
  init_states b !! j = Some x ∧ actions b !! j = Some a ∧
  rewards b !! j = Some r ∧ next_states b !! j = Some x' ∧
  non_terminal b !! j = Some nt.
Proof.
  unfold entry.
  destruct (init_states b !! j), (actions b !! j), (rewards b !! j),
    (next_states b !! j), (non_terminal b !! j); simpl; try done.
  by intros [= -> -> -> -> ->].
Qed.

Lemma batch_row_Some_inv s p x a r x' nt :
  batch_row s p = Some (x, a, r, x', nt) →
  b_init_states s !! p = Some x ∧ b_actions s !! p = Some a ∧
  b_rewards s !! p = Some r ∧ b_next_states s !! p = Some x' ∧
  b_non_terminal s !! p = Some nt.
Proof.
  unfold batch_row.
  destruct (b_init_states s !! p), (b_actions s !! p), (b_rewards s !! p),
    (b_next_states s !! p), (b_non_terminal s !! p); simpl; try done.
  by intros [= -> -> -> -> ->].
Qed.

(** The targets of one loss computation, row by row, in terms of the store's
    entries at the drawn indices. *)
Lemma sampled_targets_spec (d : DQN) (g : rng) :
  wf (exp_buf d) → (∀ x, forward (qnet d) x ≠ []) →
  ∃ chosen g' s ys,
    sample_chosen (exp_buf d) 100 g = Some (chosen, g')
    ∧ sample (exp_buf d) 100 g = Some (s, g')
    ∧ bootstrap_targets d s = Some ys
    ∧ length (data ys) = length chosen
    ∧ node ys = Some targets_node
    ∧ (∀ parts g'', qnet_loss_parts d g = Some (parts, g'') →
         lp_batch parts = s ∧ lp_ys parts = ys)
    ∧ ∀ p j x a r x' nt,
        chosen !! p = Some j →
        entry (exp_buf d) j = Some (x, a, r, x', nt) →
        ∃ m, row_max (forward (qnet d) x') = Some m
           ∧ data ys !! p
             = Some (F32.add r (F32.mul (F32.mul nt (gamma d)) m)).
Proof.
  intros Hwf Hnet.
  destruct (sample_spec (exp_buf d) 100 g Hwf)
    as (chosen & g' & s & Hch & Hs & Hlen & _ & _ & Hrows & Halign).
  destruct (bootstrap_targets_spec d s _ Hrows) as (ys & Hys & Lys & Nys & Hform).
  { intros x _. apply Hnet. }
  exists chosen, g', s, ys. split_and!; try done.
  - by rewrite Lys, Hlen.
  - intros parts g'' Hparts. unfold qnet_loss_parts in Hparts.
    rewrite Hs in Hparts; simpl in Hparts. rewrite Hys in Hparts; simpl in Hparts.
    destruct (predicted d s) as [qs|]; simpl in Hparts; [|done].
    destruct (mse qs ys) as [loss|]; simpl in Hparts; [|done].
    by injection Hparts as <- <-.
  - intros p j x a r x' nt Hp Hent.
    destruct (Halign p j Hp) as [_ Hrow]. rewrite Hent in Hrow.
    apply batch_row_Some_inv in Hrow as (_ & _ & Hr & Hx' & Hnt).
    by apply Hform.
Qed.

(** C1: in every loss computation on a well-formed store, with a network
    that yields at least one value per observation, the target of each
    sampled row is [reward + non_terminal * gamma * m] (binary32 arithmetic,
    the product taken left to right), where [m] is the maximum of the
    network's values on the row's next state; the targets of [qnet_loss] are
    these.  With discount 0.5, reward 1, a non-terminal transition and
    next-state maximum 10 the target is 6. *)
Theorem bootstrap_target_formula (d : DQN) (g : rng) :
  wf (exp_buf d) → (∀ x, forward (qnet d) x ≠ []) →
  (∃ chosen g' s ys,
     sample_chosen (exp_buf d) 100 g = Some (chosen, g')
     ∧ sample (exp_buf d) 100 g = Some (s, g')
     ∧ bootstrap_targets d s = Some ys
     ∧ length (data ys) = length chosen
     ∧ (∀ parts g'', qnet_loss_parts d g = Some (parts, g'') →
          lp_batch parts = s ∧ lp_ys parts = ys)
     ∧ ∀ p j x a r x' nt,
         chosen !! p = Some j →
         entry (exp_buf d) j = Some (x, a, r, x', nt) →
         ∃ m, row_max (forward (qnet d) x') = Some m
            ∧ is_maximum (forward (qnet d) x') m
            ∧ data ys !! p
              = Some (F32.add r (F32.mul (F32.mul nt (gamma d)) m)))
  ∧ (∃ parts g',
       qnet_loss_parts dqn_half example_rng = Some (parts, g')
       ∧ gamma dqn_half = F32.of_Z2 1 (-1)
       ∧ b_rewards (lp_batch parts) = [F32.of_Z 1]
       ∧ b_non_terminal (lp_batch parts) = [F32.of_Z 1]
       ∧ row_max <$> (forward (qnet dqn_half) <$> b_next_states (lp_batch parts))
         = [Some (F32.of_Z 10)]
       ∧ data (lp_ys parts) = [F32.of_Z 6]).
Proof.
  intros Hwf Hnet. split.
  - destruct (sampled_targets_spec d g Hwf Hnet)
      as (chosen & g' & s & ys & Hch & Hs & Hys & Hlen & _ & Hparts & Hform).
    exists chosen, g', s, ys. split_and!; try done.
    intros p j x a r x' nt Hp Hent.
    destruct (Hform p j x a r x' nt Hp Hent) as (m & Hm & Hy).
    exists m. split_and!; [done | by apply row_max_spec | done].
  - eexists _, _. split; [by vm_compute|]. by vm_compute.
Qed.

Lemma dqn_half_wf : wf (exp_buf dqn_half).
Proof. unfold wf, shape_ok. vm_compute. repeat split; lia. Defined.

Lemma tiny_net_nonempty w w2 disc t x :
  forward (qnet (tiny_dqn (w :: w2) disc t)) x ≠ [].
Proof. by destruct x. Defined.

Lemma bootstrap_target_formula_witness :
  wf (exp_buf dqn_half) ∧ (∀ x, forward (qnet dqn_half) x ≠ []) ∧
  ∃ chosen g' s ys,
    sample_chosen (exp_buf dqn_half) 100 example_rng = Some (chosen, g')
    ∧ sample (exp_buf dqn_half) 100 example_rng = Some (s, g')
    ∧ bootstrap_targets dqn_half s = Some ys
    ∧ length (data ys) = length chosen.
Proof.
  split; [exact dqn_half_wf|]. split; [apply tiny_net_nonempty|].
  destruct (bootstrap_target_formula dqn_half example_rng dqn_half_wf
              (tiny_net_nonempty _ _ _ _))
    as [(chosen & g' & s & ys & H1 & H2 & H3 & H4 & _) _].
  exists chosen, g', s, ys. split_and!; [exact H1 | exact H2 | exact H3 | exact H4].
Defined.

(** C2 as stated fails: a terminal transition with reward 5 in a store of
    capacity 1, discount 0.99, and a network with finite weights whose value
    on the (finite) next observation overflows to infinity.  The stored
    indicator is 0, and the target of the row is NaN, not the reward. *)
Lemma terminal_target_overflow :
  let t := Transition [F32.zero] 1 (F32.of_Z 5) [F32.of_Z 2] true in
  (store (ExperienceBuffer_init 1 [1]) t = Some (exp_buf dqn_overflow)
   ∧ is_finite (gamma dqn_overflow) = true
   ∧ is_finite (F32.of_Z2 1 127) = true
   ∧ forward (qnet dqn_overflow) (t_next_state t) = [S754_infinity false; F32.of_Z 2]
   ∧ ∃ parts g',
       qnet_loss_parts dqn_overflow example_rng = Some (parts, g')
       ∧ b_rewards (lp_batch parts) = [F32.of_Z 5]
       ∧ b_non_terminal (lp_batch parts) = [F32.zero]
       ∧ data (lp_ys parts) = [S754_nan])
  ∧ ¬ (∀ (d : DQN) (g : rng) parts g' p r,
         wf (exp_buf d) →
         qnet_loss_parts d g = Some (parts, g') →
         b_non_terminal (lp_batch parts) !! p = Some F32.zero →
         b_rewards (lp_batch parts) !! p = Some r →
         data (lp_ys parts) !! p = Some r).
Proof.
  assert (Hrun : ∃ parts g',
    qnet_loss_parts dqn_overflow example_rng = Some (parts, g')
    ∧ b_rewards (lp_batch parts) = [F32.of_Z 5]
    ∧ b_non_terminal (lp_batch parts) = [F32.zero]
    ∧ data (lp_ys parts) = [S754_nan]).
  { eexists _, _. split; [by vm_compute|]. by vm_compute. }
  split.
  - split_and!; [by vm_compute | by vm_compute | by vm_compute | by vm_compute | exact Hrun].
  - intros Hclaim. destruct Hrun as (parts & g' & Hparts & Hr & Hnt & Hys).
    assert (Hwf : wf (exp_buf dqn_overflow)).
    { unfold wf, shape_ok. vm_compute. repeat split; lia. }
    pose proof (Hclaim dqn_overflow example_rng parts g' 0 (F32.of_Z 5) Hwf Hparts) as H.
    rewrite Hr, Hnt, Hys in H. specialize (H eq_refl eq_refl). discriminate H.
Qed.

(** C2, amended: a [store] of a terminal transition writes indicator 0 at the
    cursor; and in every loss computation on a well-formed store, for each
    sampled row that holds a terminal transition, if the discount and the
    maximum of the network's values on its next state are finite (neither
    infinite nor NaN), the target is the stored reward, whatever those two
    values are (a reward of negative zero may come out as positive zero);
    if that maximum is infinite or NaN, the target is NaN. *)
Theorem terminal_target_is_reward (d : DQN) (g : rng) :
  wf (exp_buf d) → (∀ x, forward (qnet d) x ≠ []) →
  (∀ t, t_next_terminal t = true → i (exp_buf d) < size (exp_buf d) →
     ∃ b', store (exp_buf d) t = Some b'
         ∧ non_terminal b' !! i (exp_buf d) = Some F32.zero
         ∧ rewards b' !! i (exp_buf d) = Some (t_reward t))
  ∧ ∃ chosen g' s ys,
      sample_chosen (exp_buf d) 100 g = Some (chosen, g')
      ∧ sample (exp_buf d) 100 g = Some (s, g')
      ∧ bootstrap_targets d s = Some ys
      ∧ (∀ parts g'', qnet_loss_parts d g = Some (parts, g'') →
           lp_batch parts = s ∧ lp_ys parts = ys)
      ∧ ∀ p j t,
          chosen !! p = Some j →
          entry (exp_buf d) j = Some (row_of t) →
          t_next_terminal t = true →
          ∃ m y, row_max (forward (qnet d) (t_next_state t)) = Some m
               ∧ data ys !! p = Some y
               ∧ (is_finite (gamma d) = true → is_finite m = true →
                    y = t_reward t
                    ∨ (is_zero (t_reward t) = true ∧ is_zero y = true))
               ∧ (is_finite m = false → y = S754_nan).
Proof.
  intros Hwf Hnet. split.
  - intros t Ht Hi. exists (stored (exp_buf d) t).
    destruct Hwf as ((H1 & H2 & H3 & H4 & H5) & _).
    split_and!.
    + by apply store_stored.
    + unfold stored; simpl. rewrite list_lookup_insert_eq by lia. by rewrite Ht.
    + unfold stored; simpl. by rewrite list_lookup_insert_eq by lia.
  - destruct (sampled_targets_spec d g Hwf Hnet)
      as (chosen & g' & s & ys & Hch & Hs & Hys & Hlen & _ & Hparts & Hform).
    exists chosen, g', s, ys. split_and!; try done.
    intros p j t Hp Hent Ht.
    destruct (Hform p j _ _ _ _ _ Hp Hent) as (m & Hm & Hy).
    rewrite Ht in Hy. simpl in Hy.
    eexists m, _. split_and!; [done | exact Hy | |].
    + intros Hγ Hfin. by apply masked_target_is_reward.
    + intros Hinf. by apply masked_target_not_finite.
Qed.

Lemma dqn_terminal_wf : wf (exp_buf dqn_terminal).
Proof. unfold wf, shape_ok. vm_compute. repeat split; lia. Defined.

Lemma terminal_target_is_reward_witness :
  wf (exp_buf dqn_terminal) ∧ (∀ x, forward (qnet dqn_terminal) x ≠ []) ∧
  ∃ g' s ys,
    sample (exp_buf dqn_terminal) 100 example_rng = Some (s, g')
    ∧ bootstrap_targets dqn_terminal s = Some ys
    ∧ b_non_terminal s = [F32.zero]
    ∧ data ys !! 0 = Some (F32.of_Z 5).
Proof.
  split; [exact dqn_terminal_wf|]. split; [apply tiny_net_nonempty|].
  destruct (terminal_target_is_reward dqn_terminal example_rng dqn_terminal_wf
              (tiny_net_nonempty _ _ _ _))
    as [_ (chosen & g' & s & ys & H1 & H2 & H3 & _ & Hrow)].
  assert (Hchosen : chosen !! 0 = Some 0).
  { vm_compute in H1. by injection H1 as <- _. }
  destruct (Hrow 0 0
              (Transition [F32.zero] 1 (F32.of_Z 5) [F32.of_Z 1] true)
              Hchosen eq_refl eq_refl)
    as (m & y & Hm & Hy & Hfin & _).
  assert (Hm' : is_finite m = true).
  { vm_compute in Hm. by injection Hm as <-. }
  exists g', s, ys. split_and!; [exact H2 | exact H3 | |].
  - vm_compute in H2. by injection H2 as <- _.
  - rewrite Hy. f_equal.
    destruct (Hfin eq_refl Hm') as [->|[Hz _]]; [reflexivity | discriminate Hz].
Defined.

(** ** The graph of the loss *)

Lemma bootstrap_targets_node d s ys :
  bootstrap_targets d s = Some ys → node ys = Some targets_node.
Proof.
  unfold bootstrap_targets, qnet_forward, constant; cbn [data node].
  destruct (mapM row_max _) as [maxq|]; [|done]. cbn [mbind option_bind].
  destruct (zip_exact F32.mul _ _) as [prod|]; [|done]. cbn [mbind option_bind].
  destruct (zip_exact F32.add _ _) as [sums|]; [|done]. cbn [mbind option_bind].
  by intros [= <-].
Qed.

Lemma predicted_node_eq d s qs :
  predicted d s = Some qs → node qs = Some predicted_node.
Proof.
  unfold predicted, qnet_forward, constant; cbn [data node].
  destruct (one_hot _ _) as [mask|]; [|done]. cbn [mbind option_bind].
  destruct (mapM _ _) as [rows|]; [|done]. cbn [mbind option_bind].
  by intros [= <-].
Qed.

Lemma mse_node qs ys loss :
  mse qs ys = Some loss →
  node loss = record_op MseLossBackward [node qs; node ys].
Proof.
  unfold mse. destruct (zip_exact _ _ _) as [diffs|]; [|done].
  cbn [mbind option_bind]. by intros [= <-].
Qed.

(** C5 as stated fails: in the loss computed for [dqn_half] the targets are
    not constants.  They carry a graph that leads to the parameters through
    the forward pass over the next states, and the loss node has both the
    predictions and the targets as differentiable operands. *)
Lemma targets_are_differentiated :
  (∃ parts g',
     qnet_loss_parts dqn_half example_rng = Some (parts, g')
     ∧ requires_grad (lp_ys parts) = true
     ∧ node (lp_ys parts) = Some targets_node
     ∧ reaches_parameters targets_node = true
     ∧ node (lp_loss parts)
       = Some (Backward MseLossBackward [Some predicted_node; Some targets_node]))
  ∧ ¬ (∀ (d : DQN) (g : rng) parts g',
         qnet_loss_parts d g = Some (parts, g') →
         requires_grad (lp_ys parts) = false).
Proof.
  assert (Hrun : ∃ parts g',
     qnet_loss_parts dqn_half example_rng = Some (parts, g')
     ∧ requires_grad (lp_ys parts) = true
     ∧ node (lp_ys parts) = Some targets_node
     ∧ reaches_parameters targets_node = true
     ∧ node (lp_loss parts)
       = Some (Backward MseLossBackward [Some predicted_node; Some targets_node])).
  { eexists _, _. split; [by vm_compute|]. by vm_compute. }
  split; [exact Hrun|].
  intros Hclaim. destruct Hrun as (parts & g' & Hparts & Hreq & _).
  specialize (Hclaim _ _ _ _ Hparts). congruence.
Qed.

(** C5, amended: whenever the loss is computed, the targets are not detached
    from the graph.  The loss node has two differentiable operands, the
    predictions (a forward pass over the initial states) and the targets,
    whose graph reaches the parameters through the row maximum of the forward
    pass over the next states: the backward pass goes through both
    evaluations of the network. *)
Theorem loss_graph_reaches_both_passes (d : DQN) (g : rng) parts g' :
  qnet_loss_parts d g = Some (parts, g') →
  qnet_loss d g = Some (lp_loss parts, g')
  ∧ node (lp_qs parts) = Some predicted_node
  ∧ node (lp_ys parts) = Some targets_node
  ∧ requires_grad (lp_ys parts) = true
  ∧ reaches_parameters predicted_node = true
  ∧ reaches_parameters targets_node = true
  ∧ node (lp_loss parts)
    = Some (Backward MseLossBackward [Some predicted_node; Some targets_node]).
Proof.
  intros Hparts.
  assert (Hloss : qnet_loss d g = Some (lp_loss parts, g')).
  { unfold qnet_loss. by rewrite Hparts. }
  unfold qnet_loss_parts in Hparts.
  destruct (sample (exp_buf d) 100 g) as [[s g1]|]; [|done].
  cbn [mbind option_bind] in Hparts.
  destruct (bootstrap_targets d s) as [ys|] eqn:Hys; [|done].
  cbn [mbind option_bind] in Hparts.
  destruct (predicted d s) as [qs|] eqn:Hqs; [|done].
  cbn [mbind option_bind] in Hparts.
  destruct (mse qs ys) as [loss|] eqn:Hmse; [|done].
  cbn [mbind option_bind] in Hparts.
  injection Hparts as <- <-. cbn [lp_qs lp_ys lp_loss] in *.
  apply bootstrap_targets_node in Hys. apply predicted_node_eq in Hqs.
  apply mse_node in Hmse. rewrite Hys, Hqs in Hmse.
  split_and!; try done.
  unfold requires_grad. rewrite Hys. by apply bool_decide_eq_true.
Qed.

Lemma loss_graph_reaches_both_passes_witness :
  ∃ parts g',
    qnet_loss_parts dqn_half example_rng = Some (parts, g')
    ∧ node (lp_ys parts) = Some targets_node
    ∧ node (lp_loss parts)
      = Some (Backward MseLossBackward [Some predicted_node; Some targets_node]).
Proof.
  destruct (qnet_loss_parts dqn_half example_rng) as [[parts g']|] eqn:Hrun;
    [|vm_compute in Hrun; discriminate Hrun].
  destruct (loss_graph_reaches_both_passes dqn_half example_rng parts g' Hrun)
    as (_ & _ & Hys & _ & _ & _ & Hloss).
  exists parts, g'. split_and!; [reflexivity | exact Hys | exact Hloss].
Defined.

(** ** Greedy action selection *)

Lemma binary_round_aux_sign prec emax sx mx ex lx :
  sign_of (binary_round_aux prec emax sx mx ex lx) ≠ Some (negb sx).
Proof.
  unfold binary_round_aux.
  destruct (shr_fexp prec emax mx ex lx) as [mrs' e'].
  destruct (shr_fexp prec emax _ e' loc_Exact) as [mrs'' e''].
  destruct (shr_m mrs'') as [|m|m]; simpl.
  - by destruct sx.
  - destruct (Z.leb e'' (Z.sub emax prec)); simpl; by destruct sx.
  - done.
Qed.

Lemma binary_normalize_nonneg prec emax (m : N) e :
  sign_of (binary_normalize prec emax (Z.of_N m) e false) ≠ Some true.
Proof.
  destruct m as [|m]; simpl; [done|].
  unfold binary_round. destruct (shl_align _ _ _) as [mz ez].
  apply (binary_round_aux_sign prec emax false).
Qed.

(** Nothing without a negative sign is below zero. *)
Lemma not_below_zero (x : spec_float) :
  sign_of x ≠ Some true → SFltb x (S754_zero false) = false.
Proof. by destruct x as [[]|[]| |[] m e]. Qed.

(** A draw of [random.random()] is never below [0.0]. *)
Lemma random_random_not_below_zero g :
  SFltb (random_random g).1 F64.zero = false.
Proof.
  unfold random_random, rng_next; simpl.
  apply not_below_zero, binary_normalize_nonneg.
Qed.

(** C7: with [epsilon = 0.0] and a network that yields at least one value
    for the observation, [choose_action] returns, whatever the state of the
    random generator, the position [argmax] finds in the network's values on
    that observation, and the value at that position is a maximum of them;
    the action depends on the network and the observation only. *)
Theorem greedy_choose_action (d : DQN) (obs : state) (g : rng) :
  forward (qnet d) obs ≠ [] →
  ∃ a best,
    choose_action d obs F64.zero g = Some (a, (rng_next g).2)
    ∧ argmax (forward (qnet d) obs) = Some a
    ∧ forward (qnet d) obs !! a = Some best
    ∧ is_maximum (forward (qnet d) obs) best
    ∧ ∀ g2, fst <$> choose_action d obs F64.zero g2 = Some a.
Proof.
  intros Hne. destruct (argmax_spec (forward (qnet d) obs) Hne) as (a & best & Ha & Hbest & Hmax).
  assert (Hgreedy : ∀ g0,
    choose_action d obs F64.zero g0 = Some (a, (rng_next g0).2)).
  { intros g0. unfold choose_action.
    pose proof (random_random_not_below_zero g0) as Hu.
    assert (Hg : (random_random g0).2 = (rng_next g0).2) by done.
    destruct (random_random g0) as [u g1]; simpl in Hu, Hg.
    rewrite Hu, Ha, Hg. reflexivity. }
  exists a, best. split_and!; try done.
  intros g2. by rewrite Hgreedy.
Qed.

Lemma greedy_choose_action_witness :
  forward (qnet dqn_half) [F32.of_Z 5] ≠ []
  ∧ forward (qnet dqn_half) [F32.of_Z 5] = [F32.of_Z 5; F32.of_Z 10]
  ∧ fst <$> choose_action dqn_half [F32.of_Z 5] F64.zero example_rng = Some 1.
Proof.
  split; [apply tiny_net_nonempty|]. split; [by vm_compute|].
  destruct (greedy_choose_action dqn_half [F32.of_Z 5] example_rng
              (tiny_net_nonempty _ _ _ _ _))
    as (a & best & Hc & Ha & _).
  rewrite Hc. simpl. f_equal.
  vm_compute in Ha. by injection Ha as <-.
Defined.

(** ** The visual network ends in a rectifier *)

Lemma relu_not_negative (x : f32) :
  SFltb (relu x) F32.zero = false
  ∧ sign_of (relu x) ≠ Some true
  ∧ (is_nan x = false → SFleb F32.zero (relu x) = true)
  ∧ (is_nan (relu x) = is_nan x).
Proof.
  unfold relu, F32.zero.
  destruct x as [[]|[]| |[] m e]; simpl; split_and!; done.
Qed.

(** C8 as stated fails: on a stack of black frames, a visual network with
    finite weights whose second convolution overflows returns a NaN (the
    last layer multiplies the infinity by the weight 0, and the rectifier
    passes the NaN on), and a NaN is not at least zero. *)
Lemma atari_value_nan :
  length black_frames = 84 * 84 * 4
  ∧ QNetworkAtari.forward overflowing_atari black_frames
    = [S754_nan; S754_infinity false]
  ∧ SFleb F32.zero S754_nan = false
  ∧ ¬ (∀ (net : QNetworkAtari.t) (x : state) (v : f32),
         v ∈ QNetworkAtari.forward net x → SFleb F32.zero v = true).
Proof.
  assert (Hrun : QNetworkAtari.forward overflowing_atari black_frames
                 = [S754_nan; S754_infinity false]) by (lazy; reflexivity).
  split_and!; [apply length_replicate | exact Hrun | reflexivity |].
  intros Hclaim.
  specialize (Hclaim overflowing_atari black_frames S754_nan).
  rewrite Hrun in Hclaim. discriminate Hclaim. apply list_elem_of_here.
Qed.

(** C8, amended: the values the visual network returns for a row are the
    rectifier applied, one by one, to the output of its last fully-connected
    layer; none of them is negative (below zero, or with a negative sign),
    and each is at least zero unless the layer's output there is a NaN,
    which the rectifier passes on. *)
Theorem atari_values_nonnegative (net : QNetworkAtari.t) (x : state) :
  ∃ raw,
    QNetworkAtari.forward net x = relu <$> QNetworkAtari.fc2 net raw
    ∧ (∀ v, v ∈ QNetworkAtari.forward net x →
         SFltb v F32.zero = false ∧ sign_of v ≠ Some true)
    ∧ ∀ p v, QNetworkAtari.forward net x !! p = Some v →
        ∃ r, QNetworkAtari.fc2 net raw !! p = Some r
           ∧ v = relu r
           ∧ (is_nan r = false → SFleb F32.zero v = true)
           ∧ is_nan v = is_nan r.
Proof.
  eexists. split; [reflexivity|]. split.
  - intros v Hv. unfold QNetworkAtari.forward in Hv.
    apply list_elem_of_fmap in Hv as (r & -> & _).
    split; apply relu_not_negative.
  - intros p v Hp. unfold QNetworkAtari.forward in Hp.
    rewrite list_lookup_fmap in Hp.
    destruct (QNetworkAtari.fc2 net _ !! p) as [r|] eqn:Hr; [|done].
    injection Hp as <-. exists r. split_and!; try done; apply relu_not_negative.
Qed.

(** ** Evaluation *)


(** * Further properties of the replay store *)

(** X1: a well-formed store accepts a [store] exactly when its capacity is
    not zero; with capacity 0 the assertion at the top of [store] fails on
    every call. *)
Theorem store_accepts_iff_capacity (b : ExperienceBuffer) (t : transition) :
  wf b → (is_Some (store b t) ↔ 0 < size b).
Proof.
  intros (Hshape & Hle & Hz). split.
  - intros [b' Hst]. destruct (decide (i b < size b)) as [Hlt|Hge]; [lia|].
    by rewrite store_needs_room in Hst.
  - intros Hc. rewrite store_stored; [eauto | done | lia].
Qed.

Lemma store_accepts_iff_capacity_witness :
  wf (ExperienceBuffer_init 0 [4])
  ∧ store (ExperienceBuffer_init 0 [4]) (reward_only 1) = None.
Proof.
  split; [apply wf_init|].
  destruct (store (ExperienceBuffer_init 0 [4]) (reward_only 1)) as [b'|] eqn:Hst;
    [|reflexivity].
  pose proof (proj1 (store_accepts_iff_capacity (ExperienceBuffer_init 0 [4])
                       (reward_only 1) (wf_init 0 [4]))
                    (ex_intro _ b' Hst)) as Hc.
  simpl in Hc. lia.
Defined.

Lemma stored_valid_count (b : ExperienceBuffer) (t : transition) :
  i b < size b →
  valid_count (stored b t) = S (valid_count b) `min` size b.
Proof.
  intros Hlt. unfold valid_count, stored; cbn [full size i].
  destruct (decide (i b + 1 = size b)) as [Hw|Hw], (full b); lia.
Qed.

(** X2: a successful [store] on a well-formed store adds one valid entry
    until the capacity is reached and none after that; [full] is never
    reset, and the capacity does not change. *)
Theorem store_valid_count (b b' : ExperienceBuffer) (t : transition) :
  wf b → store b t = Some b' →
  valid_count b' = S (valid_count b) `min` size b
  ∧ size b' = size b
  ∧ (full b = true → full b' = true)
  ∧ (full b' = true ↔ full b = true ∨ i b + 1 = size b).
Proof.
  intros Hwf Hst. destruct (decide (i b < size b)) as [Hlt|Hge];
    [|by rewrite store_needs_room in Hst].
  destruct Hwf as (Hshape & Hle & Hz).
  rewrite store_stored in Hst by done. injection Hst as <-.
  unfold valid_count, stored; cbn [full size i].
  destruct (decide (i b + 1 = size b)) as [Hw|Hw], (full b);
    (split; [lia|]); (split; [done|]); (split; [done|]);
    split; intros; try done; try lia; auto; by intuition.
Qed.

Lemma store_valid_count_witness :
  wf example_buffer
  ∧ ∃ b', store example_buffer (reward_only 3) = Some b'
        ∧ valid_count example_buffer = 2 ∧ valid_count b' = 3.
Proof.
  split; [exact example_buffer_wf|].
  exists (stored example_buffer (reward_only 3)).
  assert (Hst : store example_buffer (reward_only 3)
                = Some (stored example_buffer (reward_only 3))) by by vm_compute.
  destruct (store_valid_count _ _ _ example_buffer_wf Hst) as (Hv & _).
  split_and!; [exact Hst | by vm_compute | exact Hv].
Defined.

(** Every valid index of a store filled from scratch holds one of the
    transitions stored last. *)
Lemma valid_index_has_source (c n j : nat) :
  1 ≤ c → j < n `min` c →
  ∃ k, k < n ∧ n ≤ k + c ∧ k mod c = j.
Proof.
  intros Hc Hj. destruct (decide (n ≤ c)) as [Hn|Hn].
  - exists j. split_and!; [lia | lia | apply Nat.mod_small; lia].
  - pose proof (Nat.div_mod_eq n c) as Hdm.
    pose proof (Nat.mod_upper_bound n c ltac:(lia)) as Hr.
    assert (Hq : 1 ≤ n `div` c).
    { destruct (n `div` c) eqn:E; lia. }
    destruct (decide (j < n mod c)) as [Hlt|Hge].
    + exists (j + (n `div` c) * c). split_and!; [nia | nia |].
      rewrite Nat.Div0.mod_add. apply Nat.mod_small. lia.
    + exists (j + (n `div` c - 1) * c). split_and!; [nia | nia |].
      rewrite Nat.Div0.mod_add. apply Nat.mod_small. lia.
Qed.

(** X3: whatever was stored into a fresh store of capacity [c >= 1], every
    row that [sample] returns is a transition that was stored (all five
    fields of one and the same [store] call); the zero rows the store was
    created with are never returned. *)
Theorem sampled_rows_were_stored (c : nat) (sh : list nat)
    (ts : list transition) (b : ExperienceBuffer) (k : nat) (g : rng) :
  1 ≤ c → store_all (ExperienceBuffer_init c sh) ts = Some b →
  ∃ s g', sample b k g = Some (s, g')
    ∧ batch_rows s (k `min` (length ts `min` c))
    ∧ ∀ p, p < k `min` (length ts `min` c) →
        ∃ t, t ∈ ts ∧ batch_row s p = Some (row_of t).
Proof.
  intros Hc Hst.
  destruct (store_all_ring c sh ts Hc) as (b0 & Hb0 & Hwf & Hsz & Hi & Hfull & Hent).
  rewrite Hst in Hb0. injection Hb0 as <-.
  assert (Hvc : valid_count b = length ts `min` c).
  { unfold valid_count. rewrite Hfull, Hsz, Hi. case_bool_decide; [lia|].
    rewrite Nat.mod_small; lia. }
  destruct (sample_spec b k g Hwf)
    as (chosen & g' & s & _ & Hs & Hlen & _ & Hin & Hrows & Halign).
  rewrite Hvc in Hlen, Hrows.
  exists s, g'. split_and!; try done.
  intros p Hp.
  destruct (lookup_lt_is_Some_2 chosen p ltac:(lia)) as [j Hj].
  destruct (Halign p j Hj) as [_ ->].
  assert (Hjv : j < length ts `min` c).
  { rewrite <- Hvc. apply Hin. by eapply list_elem_of_lookup_2. }
  destruct (valid_index_has_source c (length ts) j Hc Hjv) as (k0 & Hk0 & Hwin & Hmod).
  destruct (lookup_lt_is_Some_2 ts k0 Hk0) as [t Ht].
  exists t. split; [by eapply list_elem_of_lookup_2|].
  rewrite <- Hmod. by apply Hent.
Qed.

Lemma sampled_rows_were_stored_witness :
  1 ≤ 2 ∧
  ∃ b s g',
    store_all (ExperienceBuffer_init 2 [4]) (reward_only <$> [7; 8; 9]%Z) = Some b
    ∧ sample b 5 example_rng = Some (s, g')
    ∧ batch_rows s 2.
Proof.
  split; [lia|].
  destruct (store_all (ExperienceBuffer_init 2 [4]) (reward_only <$> [7; 8; 9]%Z))
    as [b|] eqn:Hst; [|vm_compute in Hst; discriminate Hst].
  destruct (sampled_rows_were_stored 2 [4] _ b 5 example_rng ltac:(lia) Hst)
    as (s & g' & Hs & Hrows & _).
  exists b, s, g'. split_and!; [reflexivity | exact Hs | exact Hrows].
Defined.

(** Distinct indices below [n], [n] of them, are all of [0, n). *)
Lemma whole_draw_is_permutation (chosen : list nat) (n : nat) :
  NoDup chosen → length chosen = n → (∀ j, j ∈ chosen → j < n) →
  chosen ≡ₚ seq 0 n.
Proof.
  intros Hnd Hlen Hin. apply submseteq_length_Permutation.
  - apply NoDup_submseteq; [done|]. intros j Hj. apply elem_of_seq.
    apply Hin in Hj. lia.
  - by rewrite length_seq, Hlen.
Qed.

(** X4: asking a well-formed store for at least as many rows as it has valid
    entries returns every valid entry exactly once: the drawn indices are a
    rearrangement of [0, valid_count). *)
Theorem sample_everything (b : ExperienceBuffer) (k : nat) (g : rng) :
  wf b → valid_count b ≤ k →
  ∃ chosen g' s,
    sample_chosen b k g = Some (chosen, g')
    ∧ sample b k g = Some (s, g')
    ∧ chosen ≡ₚ seq 0 (valid_count b)
    ∧ ∀ j, j < valid_count b →
        ∃ p, chosen !! p = Some j ∧ batch_row s p = entry b j.
Proof.
  intros Hwf Hk.
  destruct (sample_spec b k g Hwf)
    as (chosen & g' & s & Hch & Hs & Hlen & Hnd & Hin & _ & Halign).
  rewrite Nat.min_r in Hlen by done.
  assert (Hperm : chosen ≡ₚ seq 0 (valid_count b))
    by by apply whole_draw_is_permutation.
  exists chosen, g', s. split_and!; try done.
  intros j Hj.
  assert (Hjc : j ∈ chosen).
  { rewrite Hperm. apply elem_of_seq. lia. }
  apply list_elem_of_lookup_1 in Hjc as [p Hp].
  exists p. split; [done|]. by apply Halign.
Qed.

Lemma sample_everything_witness :
  wf example_buffer ∧ valid_count example_buffer ≤ 2
  ∧ ∃ chosen g',
      sample_chosen example_buffer 2 example_rng = Some (chosen, g')
      ∧ chosen ≡ₚ [0; 1].
Proof.
  split; [exact example_buffer_wf|]. split; [vm_compute; lia|].
  destruct (sample_everything example_buffer 2 example_rng example_buffer_wf
              ltac:(vm_compute; lia))
    as (chosen & g' & s & Hch & _ & Hperm & _).
  exists chosen, g'. split; [exact Hch | exact Hperm].
Defined.

(** X5: a transition just stored can be sampled at once: after a successful
    [store] on a well-formed store, a [sample] of at least [size] rows
    returns a batch one row of which is that transition, all five fields. *)
Theorem store_then_sample (b b' : ExperienceBuffer) (t : transition)
    (k : nat) (g : rng) :
  wf b → store b t = Some b' → size b ≤ k →
  ∃ s g' p, sample b' k g = Some (s, g') ∧ batch_row s p = Some (row_of t).
Proof.
  intros Hwf Hst Hk.
  destruct (decide (i b < size b)) as [Hlt|Hge];
    [|by rewrite store_needs_room in Hst].
  pose proof (store_preserves_wf _ _ _ Hwf Hst) as Hwf'.
  destruct Hwf as (Hshape & Hle & Hz).
  rewrite store_stored in Hst by done. injection Hst as <-.
  pose proof (stored_valid_count b t Hlt) as Hvc.
  assert (Hcur : i b < valid_count (stored b t)).
  { rewrite Hvc. unfold valid_count. destruct (full b); lia. }
  destruct (sample_spec (stored b t) k g Hwf')
    as (chosen & g' & s & _ & Hs & Hlen & Hnd & Hin & _ & Halign).
  rewrite Nat.min_r in Hlen by (rewrite Hvc; lia).
  assert (Hjc : i b ∈ chosen).
  { rewrite (whole_draw_is_permutation chosen _ Hnd Hlen Hin).
    apply elem_of_seq. lia. }
  apply list_elem_of_lookup_1 in Hjc as [p Hp].
  exists s, g', p. split; [done|].
  destruct (Halign p _ Hp) as [_ ->]. by apply stored_entry_cursor.
Qed.

Lemma store_then_sample_witness :
  wf example_buffer ∧ 3 ≤ 3
  ∧ ∃ b' s g' p,
      store example_buffer (reward_only 3) = Some b'
      ∧ sample b' 3 example_rng = Some (s, g')
      ∧ batch_row s p = Some (row_of (reward_only 3)).
Proof.
  split; [exact example_buffer_wf|]. split; [lia|].
  assert (Hst : store example_buffer (reward_only 3)
                = Some (stored example_buffer (reward_only 3))) by by vm_compute.
  destruct (store_then_sample _ _ _ 3 example_rng example_buffer_wf Hst
              ltac:(vm_compute; lia))
    as (s & g' & p & Hs & Hrow).
  exists (stored example_buffer (reward_only 3)), s, g', p.
  split_and!; [exact Hst | exact Hs | exact Hrow].
Defined.

(** * Further properties of action selection *)

Lemma argmax_lt_length (row : list f32) (a : nat) :
  argmax row = Some a → a < length row.
Proof.
  intros Ha. destruct (argmax_spec row) as (a' & best & Ha' & Hbest & _).
  { by destruct row. }
  rewrite Ha in Ha'. injection Ha' as <-. by eapply lookup_lt_Some.
Qed.

(** X6: when the network yields [num_actions] values for the observation,
    [choose_action] returns, for every [epsilon] and every generator state,
    an action index below [num_actions]; it raises only when [num_actions]
    is 0. *)
Theorem choose_action_in_range (d : DQN) (obs : state) (epsilon : f64)
    (g : rng) :
  length (forward (qnet d) obs) = num_actions d →
  match choose_action d obs epsilon g with
  | Some (a, _) => a < num_actions d
  | None => num_actions d = 0
  end.
Proof.
  intros Hlen. unfold choose_action.
  destruct (random_random g) as [u g1].
  destruct (SFltb u epsilon).
  - unfold random_choice_range. case_decide as Hn; [done|].
    pose proof (randbelow_lt (num_actions d) g1 ltac:(lia)) as Hlt.
    by destruct (randbelow (num_actions d) g1).
  - destruct (argmax (forward (qnet d) obs)) as [a|] eqn:Ha; simpl.
    + rewrite <- Hlen. by apply argmax_lt_length.
    + rewrite <- Hlen. by destruct (forward (qnet d) obs).
Qed.

Lemma choose_action_in_range_witness :
  length (forward (qnet dqn_half) [F32.of_Z 5]) = num_actions dqn_half
  ∧ ∃ a g', choose_action dqn_half [F32.of_Z 5] eps_0_05 example_rng = Some (a, g')
          ∧ a < 2.
Proof.
  split; [by vm_compute|].
  pose proof (choose_action_in_range dqn_half [F32.of_Z 5] eps_0_05 example_rng
                ltac:(by vm_compute)) as H.
  destruct (choose_action dqn_half [F32.of_Z 5] eps_0_05 example_rng)
    as [[a g']|]; [|vm_compute in H; discriminate H].
  exists a, g'. split; [reflexivity | exact H].
Defined.

(** A draw of [random.random()] is not below an [epsilon] that is zero,
    negative or NaN. *)
Lemma not_below_nonpositive (u eps : spec_float) :
  sign_of u ≠ Some true →
  is_nan eps = true ∨ is_zero eps = true ∨ sign_of eps = Some true →
  SFltb u eps = false.
Proof.
  intros Hu Heps.
  destruct u as [[]|[]| |[] mu eu], eps as [[]|[]| |[] me ee];
    simpl in *; try done; by destruct Heps as [H|[H|H]].
Qed.

(** X7: with an [epsilon] that is zero (of either sign), negative, minus
    infinity or NaN, [choose_action] never explores: for every generator
    state it returns the argmax of the network's values, and raises when
    there are none. *)
Theorem nonpositive_epsilon_is_greedy (d : DQN) (obs : state) (epsilon : f64)
    (g : rng) :
  is_nan epsilon = true ∨ is_zero epsilon = true ∨ sign_of epsilon = Some true →
  choose_action d obs epsilon g
  = a ← argmax (forward (qnet d) obs); Some (a, (rng_next g).2).
Proof.
  intros Heps. unfold choose_action.
  assert (Hu : SFltb (random_random g).1 epsilon = false).
  { apply not_below_nonpositive; [|done].
    unfold random_random, rng_next; simpl. apply binary_normalize_nonneg. }
  assert (Hg : (random_random g).2 = (rng_next g).2) by done.
  destruct (random_random g) as [u g1]; simpl in Hu, Hg.
  by rewrite Hu, Hg.
Qed.

Lemma nonpositive_epsilon_is_greedy_witness :
  (is_nan S754_nan = true ∨ is_zero S754_nan = true
   ∨ sign_of S754_nan = Some true)
  ∧ fst <$> choose_action dqn_half [F32.of_Z 5] S754_nan rng_half = Some 1.
Proof.
  split; [by left|].
  rewrite (nonpositive_epsilon_is_greedy dqn_half [F32.of_Z 5] S754_nan rng_half
             (or_introl eq_refl)).
  by vm_compute.
Defined.

Lemma digits2_pos_lower m : (2 ^ (Z.pos (digits2_pos m) - 1) ≤ Z.pos m)%Z.
Proof.
  induction m as [m IH|m IH|]; simpl digits2_pos.
  - rewrite Pos2Z.inj_succ.
    replace (Z.succ (Z.pos (digits2_pos m)) - 1)%Z
      with (Z.succ (Z.pos (digits2_pos m) - 1)) by lia.
    rewrite Z.pow_succ_r by lia. lia.
  - rewrite Pos2Z.inj_succ.
    replace (Z.succ (Z.pos (digits2_pos m)) - 1)%Z
      with (Z.succ (Z.pos (digits2_pos m) - 1)) by lia.
    rewrite Z.pow_succ_r by lia. lia.
  - done.
Qed.

Lemma digits2_pos_bound m n :
  (0 ≤ n)%Z → (Z.pos m < 2 ^ n)%Z → (Z.pos (digits2_pos m) ≤ n)%Z.
Proof.
  intros Hn Hm. pose proof (digits2_pos_lower m) as Hl.
  destruct (decide (Z.pos (digits2_pos m) ≤ n)%Z) as [|Hgt]; [done|].
  assert (2 ^ n ≤ 2 ^ (Z.pos (digits2_pos m) - 1))%Z.
  { apply Z.pow_le_mono_r; lia. }
  lia.
Qed.

Lemma digits2_pos_shift m p :
  digits2_pos (Pos.iter xO m p) = (digits2_pos m + p)%positive.
Proof.
  induction p as [|p IH] using Pos.peano_ind.
  - simpl. lia.
  - rewrite Pos.iter_succ. simpl. rewrite IH. lia.
Qed.

Lemma round_aux_exact (mz : positive) (ez : Z) :
  Z.pos (digits2_pos mz) = 53%Z → (-1074 ≤ ez ≤ 971)%Z →
  binary_round_aux 53 1024 false (Z.pos mz) ez loc_Exact
  = S754_finite false mz ez.
Proof.
  intros Hd He.
  assert (Hfexp : fexp 53 1024 (Z.pos (digits2_pos mz) + ez) = ez).
  { unfold fexp, emin. lia. }
  unfold binary_round_aux, shr_fexp. cbn [Zdigits2 shr_record_of_loc].
  rewrite Hfexp, Z.sub_diag. cbn [shr shr_m loc_of_shr_record round_nearest_even].
  cbn [Zdigits2 shr_record_of_loc]. rewrite Hfexp, Z.sub_diag.
  cbn [shr shr_m].
  replace (Z.leb ez (Z.sub 1024 53)) with true; [done|].
  symmetry. apply Z.leb_le. lia.
Qed.

Lemma unit_draw_below_one (m : positive) :
  (Z.pos m < 2 ^ 53)%Z →
  SFltb (binary_round 53 1024 false m (-53)) (F64.of_Z 1) = true.
Proof.
  intros Hm. pose proof (digits2_pos_bound m 53 ltac:(lia) Hm) as Hd.
  unfold binary_round.
  assert (Hfexp : fexp 53 1024 (Z.pos (digits2_pos m) + -53)
                  = (Z.pos (digits2_pos m) - 106)%Z).
  { unfold fexp, emin. lia. }
  rewrite Hfexp. unfold shl_align.
  destruct (Z.pos (digits2_pos m) - 106 - -53)%Z as [|p|p] eqn:Hsh.
  - rewrite round_aux_exact by lia. done.
  - lia.
  - assert (Hdig : Z.pos (digits2_pos (Pos.iter xO m p)) = 53%Z).
    { rewrite digits2_pos_shift. lia. }
    rewrite round_aux_exact by (done || lia).
    unfold SFltb, SFcompare.
    change (F64.of_Z 1) with (S754_finite false 4503599627370496 (-52)).
    cbv beta iota.
    destruct (Z.compare_spec (Z.pos (digits2_pos m) - 106) (-52)); [lia | done | lia].
Qed.

(** A draw of [random.random()] is below [1.0]. *)
Lemma random_random_below_one g :
  SFltb (random_random g).1 (F64.of_Z 1) = true.
Proof.
  unfold random_random, rng_next; simpl.
  assert (Hk : (g 0%nat mod 2 ^ 53 < 2 ^ 53)%N) by by apply N.mod_lt.
  destruct (g 0%nat mod 2 ^ 53)%N as [|m] eqn:Hm; [done|].
  apply unit_draw_below_one. lia.
Qed.

(** X8: with [epsilon = 1.0], [choose_action] always explores: for every
    generator state its result is the draw of [random.choice] over
    [range(num_actions)] (an error when [num_actions] is 0); the network is
    not consulted, so the result is the same for every network and
    observation. *)
Theorem epsilon_one_always_explores (d : DQN) (obs : state) (g : rng) :
  choose_action d obs (F64.of_Z 1) g
  = random_choice_range (num_actions d) (rng_next g).2
  ∧ ∀ d' obs', num_actions d' = num_actions d →
      choose_action d' obs' (F64.of_Z 1) g = choose_action d obs (F64.of_Z 1) g.
Proof.
  assert (Hexp : ∀ d0 obs0, choose_action d0 obs0 (F64.of_Z 1) g
                 = random_choice_range (num_actions d0) (rng_next g).2).
  { intros d0 obs0. unfold choose_action.
    pose proof (random_random_below_one g) as Hu.
    assert (Hg : (random_random g).2 = (rng_next g).2) by done.
    destruct (random_random g) as [u g1]; cbn [fst snd] in Hu, Hg.
    by rewrite Hu, Hg. }
  split; [apply Hexp|].
  intros d' obs' Hn. by rewrite !Hexp, Hn.
Qed.

(** * Further properties of the loss *)

Lemma mul_one_l (q : spec_float) :
  valid_binary 24 128 q = true → F32.mul F32.one q = q.
Proof.
  destruct q as [s|s| |s m e]; try done. intros Hv.
  unfold valid_binary, bounded, canonical_mantissa in Hv.
  apply andb_true_iff in Hv as [Hc Hb].
  apply Z.eqb_eq in Hc. apply Z.leb_le in Hb.
  change F32.one with (S754_finite false 8388608 (-23)).
  unfold F32.mul, SFmul. cbn [xorb].
  change (Pos.mul 8388608 m) with (Pos.iter xO m 23).
  unfold binary_round_aux, shr_fexp. cbn [Zdigits2 shr_record_of_loc].
  rewrite digits2_pos_shift.
  replace (Z.pos (digits2_pos m + 23) + (-23 + e))%Z
    with (Z.pos (digits2_pos m) + e)%Z by lia.
  change F32.prec with 24%Z. change F32.emax with 128%Z.
  rewrite Hc. replace (e - (-23 + e))%Z with 23%Z by lia.
  cbn [shr].
  assert (Hit : SpecFloat.iter_pos shr_1 23
                  {| shr_m := Z.pos (Pos.iter xO m 23);
                     shr_r := false; shr_s := false |}
                = {| shr_m := Z.pos m; shr_r := false; shr_s := false |})
    by reflexivity.
  rewrite Hit. cbn [shr_m loc_of_shr_record round_nearest_even].
  cbn [Zdigits2 shr_record_of_loc].
  replace (Z.pos (digits2_pos m) + (-23 + e + 23))%Z
    with (Z.pos (digits2_pos m) + e)%Z by lia.
  rewrite Hc. replace (e - (-23 + e + 23))%Z with 0%Z by lia.
  cbn [shr shr_m].
  replace (-23 + e + 23)%Z with e by lia.
  replace (Z.leb e (Z.sub 128 24)) with true; [done|].
  symmetry. by apply Z.leb_le.
Qed.

Lemma same_value_refl x : same_value x x.
Proof. by left. Qed.

Lemma same_value_trans x y z : same_value x y → same_value y z → same_value x z.
Proof.
  intros [->|[Hx Hy]] [->|[Hy' Hz]]; unfold same_value; auto.
Qed.

Lemma add_zero_same_value (x z : f32) :
  is_zero z = true → same_value x (F32.add x z).
Proof.
  destruct z as [sz| | |]; try done. intros _.
  destruct x as [[]|[]| |[] m e], sz; unfold same_value; simpl; auto.
Qed.

Lemma sum_zeros_same_value (x : f32) (zs : list f32) :
  Forall (λ z, is_zero z = true) zs → same_value x (foldl F32.add x zs).
Proof.
  revert x. induction zs as [|z zs IH]; intros x Hz; simpl.
  - apply same_value_refl.
  - apply Forall_cons in Hz as [Hz Hzs].
    eapply same_value_trans; [by apply add_zero_same_value | by apply IH].
Qed.

Lemma mul_zero_finite (q : f32) :
  is_finite q = true → is_zero (F32.mul F32.zero q) = true.
Proof. by destruct q. Qed.

(** The products of a row with a mask whose class lies outside the row's
    positions are all zeros. *)
Lemma masked_products_miss (row : list f32) (a start : nat) :
  a < start ∨ start + length row ≤ a →
  Forall (λ v, is_finite v = true) row →
  Forall (λ z, is_zero z = true)
         (zip_with F32.mul (mask_from a start (length row)) row).
Proof.
  revert start. induction row as [|q row IH]; intros start Ha Hfin; simpl.
  - constructor.
  - apply Forall_cons in Hfin as [Hq Hfin]. simpl in Ha.
    unfold mask_from; simpl. rewrite decide_False by lia.
    constructor; [by apply mul_zero_finite|].
    apply IH; [lia | done].
Qed.

(** The sum of a row masked at one of its positions is the row's value
    there. *)
Lemma masked_sum_hit (row : list f32) (a start : nat) :
  start ≤ a < start + length row →
  Forall (λ v, is_finite v = true ∧ valid_binary 24 128 v = true) row →
  ∃ q, row !! (a - start) = Some q
     ∧ same_value q
         (foldl F32.add F32.zero
            (zip_with F32.mul (mask_from a start (length row)) row)).
Proof.
  revert start. induction row as [|q row IH]; intros start Ha Hrow; simpl in *.
  - lia.
  - apply Forall_cons in Hrow as [[Hq Hv] Hrow].
    unfold mask_from; simpl. destruct (decide (start = a)) as [->|Hne].
    + exists q. rewrite Nat.sub_diag. split; [done|].
      rewrite mul_one_l by done.
      eapply same_value_trans; [|apply sum_zeros_same_value].
      * destruct q as [[]|[]| |[] m e]; unfold same_value; simpl; auto.
      * apply masked_products_miss; [lia|].
        eapply Forall_impl; [exact Hrow|]. by intros v [? ?].
    + destruct (IH (S start) ltac:(lia) Hrow) as (q' & Hq' & Hsum).
      exists q'. split.
      * replace (a - start) with (S (a - S start)) by lia. done.
      * destruct q as [[]|[]| |[] m e]; try done; exact Hsum.
Qed.

(** What [predicted] computes for the row at position [p]. *)
Lemma predicted_rows (d : DQN) (s : batch) (qs : tensor (list f32)) :
  predicted d s = Some qs →
  ∀ p a x,
    b_actions s !! p = Some a → b_init_states s !! p = Some x →
    a < num_actions d
    ∧ length (forward (qnet d) x) = num_actions d
    ∧ data qs !! p
      = Some (foldl F32.add F32.zero
                (zip_with F32.mul (mask_from a 0 (num_actions d))
                   (forward (qnet d) x))).
Proof.
  unfold predicted, qnet_forward, constant; cbn [data node].
  destruct (one_hot _ _) as [mask|] eqn:Hmask; [|done]. cbn [mbind option_bind].
  destruct (mapM _ _) as [rows|] eqn:Hrows; [|done]. cbn [mbind option_bind].
  intros [= <-] p a x Ha Hx. cbn [data].
  apply mapM_Some_1 in Hmask, Hrows.
  destruct (Forall2_lookup_l _ _ _ _ _ Hmask Ha) as (mrow & Hmrow & Hm).
  case_decide as Hlt; [|done]. injection Hm as Hm.
  assert (Hz : zip mask (forward (qnet d) <$> b_init_states s) !! p
               = Some (mrow, forward (qnet d) x)).
  { rewrite lookup_zip_with. rewrite Hmrow. simpl.
    by rewrite list_lookup_fmap, Hx. }
  destruct (Forall2_lookup_l _ _ _ _ _ Hrows Hz) as (r & Hr & Hzip).
  unfold zip_exact in Hzip; simpl in Hzip.
  case_decide as Hlen; [|done]. injection Hzip as <-.
  rewrite <- Hm in Hlen. rewrite length_fmap, length_seq in Hlen.
  split_and!; [done | done |].
  rewrite list_lookup_fmap, Hr. simpl. by rewrite <- Hm.
Qed.

(** X9: whenever the loss is computed and the network's values are finite
    binary32 numbers, the prediction of each sampled row is the network's
    value, on the row's initial state, of the action the row took (the sign
    of a zero may differ): the one-hot mask and row sum select it. *)
Theorem predicted_is_action_value (d : DQN) (g : rng) parts g' :
  qnet_loss_parts d g = Some (parts, g') →
  (∀ x, x ∈ b_init_states (lp_batch parts) →
        Forall (λ v, is_finite v = true ∧ valid_binary 24 128 v = true)
               (forward (qnet d) x)) →
  ∀ p a x,
    b_actions (lp_batch parts) !! p = Some a →
    b_init_states (lp_batch parts) !! p = Some x →
    ∃ q r, forward (qnet d) x !! a = Some q
         ∧ data (lp_qs parts) !! p = Some r
         ∧ same_value q r.
Proof.
  intros Hparts Hnet p a x Ha Hx.
  unfold qnet_loss_parts in Hparts.
  destruct (sample (exp_buf d) 100 g) as [[s g1]|]; [|done].
  cbn [mbind option_bind] in Hparts.
  destruct (bootstrap_targets d s) as [ys|]; [|done].
  cbn [mbind option_bind] in Hparts.
  destruct (predicted d s) as [qs|] eqn:Hqs; [|done].
  cbn [mbind option_bind] in Hparts.
  destruct (mse qs ys) as [loss|]; [|done].
  cbn [mbind option_bind] in Hparts.
  injection Hparts as <- <-. cbn [lp_qs lp_batch] in *.
  destruct (predicted_rows d s qs Hqs p a x Ha Hx) as (Hlt & Hlen & Hq).
  destruct (masked_sum_hit (forward (qnet d) x) a 0) as (q & Hqa & Hsame).
  { lia. }
  { apply Hnet. by eapply list_elem_of_lookup_2. }
  rewrite Nat.sub_0_r in Hqa. rewrite Hlen in Hsame.
  eexists q, _. split_and!; [done | exact Hq | exact Hsame].
Qed.

Lemma predicted_is_action_value_witness :
  ∃ parts g' q r,
    qnet_loss_parts dqn_half example_rng = Some (parts, g')
    ∧ forward (qnet dqn_half) [F32.zero] !! 1 = Some q
    ∧ data (lp_qs parts) !! 0 = Some r
    ∧ same_value q r.
Proof.
  destruct (qnet_loss_parts dqn_half example_rng) as [[parts g']|] eqn:Hrun;
    [|vm_compute in Hrun; discriminate Hrun].
  assert (Hb : b_init_states (lp_batch parts) = [[F32.zero]]
               ∧ b_actions (lp_batch parts) = [1]).
  { pose proof Hrun as H. vm_compute in H. injection H as <- _.
    clear Hrun. split; reflexivity. }
  destruct Hb as [Hs Ha].
  destruct (predicted_is_action_value dqn_half example_rng parts g' Hrun)
    with (p := 0) (a := 1) (x := [F32.zero]) as (q & r & Hq & Hr & Hqr).
  - intros x Hx. rewrite Hs in Hx. apply list_elem_of_singleton in Hx as ->.
    vm_compute. repeat constructor.
  - by rewrite Ha.
  - by rewrite Hs.
  - exists parts, g', q, r. split_and!; [reflexivity | exact Hq | exact Hr | exact Hqr].
Defined.

(** [predicted] returns on a batch whose actions are classes and whose
    initial states the network maps to one value per class. *)
Lemma predicted_spec (d : DQN) (s : batch) (n : nat) :
  batch_rows s n →
  Forall (λ a, a < num_actions d) (b_actions s) →
  (∀ x, x ∈ b_init_states s → length (forward (qnet d) x) = num_actions d) →
  ∃ qs, predicted d s = Some qs ∧ length (data qs) = n.
Proof.
  intros (Ls & La & _) Hact Hnet.
  unfold predicted, qnet_forward, constant; cbn [data node].
  assert (is_Some (one_hot (b_actions s) (num_actions d))) as [mask Hmask].
  { apply mapM_is_Some_2. eapply Forall_impl; [exact Hact|].
    intros a Ha; simpl. rewrite decide_True by done. eauto. }
  rewrite Hmask. cbn [mbind option_bind].
  pose proof (mapM_Some_1 _ _ _ Hmask) as Hrows.
  pose proof (length_mapM _ _ _ Hmask) as Lmask.
  assert (is_Some (mapM (λ p : list f32 * list f32, zip_exact F32.mul p.1 p.2)
                        (zip mask (forward (qnet d) <$> b_init_states s))))
    as [rows Hr].
  { apply mapM_is_Some_2, Forall_lookup. intros p [mrow row] Hp; simpl.
    apply lookup_zip_with_Some in Hp as (mrow' & row' & [= <- <-] & Hm & Hrow).
    rewrite list_lookup_fmap in Hrow.
    destruct (b_init_states s !! p) as [x|] eqn:Hx; [|done].
    injection Hrow as <-.
    destruct (Forall2_lookup_r _ _ _ _ _ Hrows Hm) as (a & Ha & Hma).
    case_decide; [|done]. injection Hma as <-.
    rewrite zip_exact_Some; [eauto|].
    rewrite length_fmap, length_seq. symmetry. apply Hnet.
    by eapply list_elem_of_lookup_2. }
  rewrite Hr. cbn [mbind option_bind].
  eexists. split; [reflexivity|]. cbn [data].
  rewrite length_fmap. apply length_mapM in Hr. rewrite <- Hr.
  rewrite length_zip_with, length_fmap. lia.
Qed.

Lemma mse_spec (qs ys : tensor (list f32)) :
  length (data qs) = length (data ys) → is_Some (mse qs ys).
Proof.
  intros Hlen. unfold mse. rewrite zip_exact_Some by done. simpl. eauto.
Qed.

(** The actions of a sampled batch are actions held by the store. *)
Lemma sampled_actions_from_store (b : ExperienceBuffer) (k : nat) (g : rng)
    (s : batch) (g' : rng) (P : nat → Prop) :
  wf b → sample b k g = Some (s, g') →
  Forall P (actions b) → Forall P (b_actions s).
Proof.
  intros Hwf Hs HP.
  destruct (sample_spec b k g Hwf)
    as (chosen & g0 & s0 & _ & Hs0 & Hlen & _ & _ & Hrows & Halign).
  rewrite Hs in Hs0. injection Hs0 as <- <-.
  apply Forall_lookup. intros p a Hp.
  destruct Hrows as (_ & La & _).
  assert (Hpl : p < length chosen).
  { apply lookup_lt_Some in Hp. lia. }
  destruct (lookup_lt_is_Some_2 chosen p Hpl) as [j Hj].
  destruct (Halign p j Hj) as [[[[[[x a'] r] x'] nt] Hent] Hrow].
  rewrite Hent in Hrow.
  apply batch_row_Some_inv in Hrow as (_ & Ha' & _).
  apply entry_Some_inv in Hent as (_ & Hact & _).
  rewrite Hp in Ha'. injection Ha' as ->.
  eapply Forall_lookup_1; [exact HP | exact Hact].
Qed.

(** The loss computation returns in the states the training loop keeps. *)
Lemma qnet_loss_parts_total (d : DQN) (g : rng) :
  wf (exp_buf d) → 0 < num_actions d →
  (∀ x, length (forward (qnet d) x) = num_actions d) →
  Forall (λ a, a < num_actions d) (actions (exp_buf d)) →
  ∃ parts g',
    qnet_loss_parts d g = Some (parts, g')
    ∧ batch_rows (lp_batch parts) (100 `min` valid_count (exp_buf d))
    ∧ length (data (lp_ys parts)) = 100 `min` valid_count (exp_buf d)
    ∧ length (data (lp_qs parts)) = 100 `min` valid_count (exp_buf d).
Proof.
  intros Hwf Hn Hnet Hact.
  destruct (sample_spec (exp_buf d) 100 g Hwf)
    as (chosen & g' & s & _ & Hs & _ & _ & _ & Hrows & _).
  destruct (bootstrap_targets_spec d s _ Hrows) as (ys & Hys & Lys & _).
  { intros x _ Hnil. specialize (Hnet x). rewrite Hnil in Hnet. simpl in Hnet. lia. }
  destruct (predicted_spec d s _ Hrows) as (qs & Hqs & Lqs).
  { by eapply sampled_actions_from_store. }
  { intros x _. apply Hnet. }
  destruct (mse_spec qs ys) as [loss Hloss]; [by rewrite Lqs, Lys|].
  assert (Hparts : qnet_loss_parts d g
    = Some ({| lp_batch := s; lp_ys := ys; lp_qs := qs; lp_loss := loss |}, g')).
  { unfold qnet_loss_parts. rewrite Hs; simpl. rewrite Hys; simpl.
    rewrite Hqs; simpl. by rewrite Hloss. }
  eexists _, g'. split; [exact Hparts|]. split_and!; done.
Qed.

(** X10: on a well-formed store all of whose actions are below
    [num_actions], with [num_actions >= 1] and a network that yields
    [num_actions] values per observation, the loss computation does not
    raise; it works on [min 100 valid_count] rows, one target and one
    prediction per row. *)
Theorem qnet_loss_returns (d : DQN) (g : rng) :
  wf (exp_buf d) → 0 < num_actions d →
  (∀ x, length (forward (qnet d) x) = num_actions d) →
  Forall (λ a, a < num_actions d) (actions (exp_buf d)) →
  ∃ parts g',
    qnet_loss_parts d g = Some (parts, g')
    ∧ qnet_loss d g = Some (lp_loss parts, g')
    ∧ batch_rows (lp_batch parts) (100 `min` valid_count (exp_buf d))
    ∧ length (data (lp_ys parts)) = 100 `min` valid_count (exp_buf d)
    ∧ length (data (lp_qs parts)) = 100 `min` valid_count (exp_buf d).
Proof.
  intros Hwf Hn Hnet Hact.
  destruct (qnet_loss_parts_total d g Hwf Hn Hnet Hact)
    as (parts & g' & Hparts & Hrows & Lys & Lqs).
  exists parts, g'. split_and!; try done.
  unfold qnet_loss. by rewrite Hparts.
Qed.

Lemma tiny_net_width w1 w2 disc t x :
  length (forward (qnet (tiny_dqn [w1; w2] disc t)) x) = 2.
Proof. reflexivity. Defined.

Lemma qnet_loss_returns_witness :
  wf (exp_buf dqn_half) ∧ 0 < num_actions dqn_half
  ∧ (∀ x, length (forward (qnet dqn_half) x) = num_actions dqn_half)
  ∧ Forall (λ a, a < num_actions dqn_half) (actions (exp_buf dqn_half))
  ∧ ∃ parts g', qnet_loss_parts dqn_half example_rng = Some (parts, g')
              ∧ length (data (lp_ys parts)) = 1.
Proof.
  assert (Hact : Forall (λ a, a < num_actions dqn_half)
                        (actions (exp_buf dqn_half))).
  { vm_compute. repeat constructor. }
  split; [exact dqn_half_wf|]. split; [vm_compute; lia|].
  split; [apply tiny_net_width|]. split; [exact Hact|].
  destruct (qnet_loss_returns dqn_half example_rng dqn_half_wf
              ltac:(vm_compute; lia) (tiny_net_width _ _ _ _) Hact)
    as (parts & g' & Hparts & _ & _ & Hlen & _).
  exists parts, g'. split; [exact Hparts | exact Hlen].
Defined.

Lemma mul_self_nonneg (x : f32) : sign_of (F32.mul x x) ≠ Some true.
Proof.
  destruct x as [[]|[]| |s m e]; try done.
  unfold F32.mul, SFmul.
  pose proof (binary_round_aux_sign F32.prec F32.emax (xorb s s)
                (Z.pos (m * m)) (e + e) loc_Exact) as H.
  by destruct s.
Qed.

Lemma binary_round_nonneg prec emax m e :
  sign_of (binary_round prec emax false m e) ≠ Some true.
Proof.
  unfold binary_round. destruct (shl_align _ _ _) as [mz ez].
  apply (binary_round_aux_sign prec emax false).
Qed.

Lemma add_nonneg (a b : f32) :
  sign_of a ≠ Some true → sign_of b ≠ Some true →
  sign_of (F32.add a b) ≠ Some true.
Proof.
  destruct a as [[]|[]| |[] ma ea], b as [[]|[]| |[] mb eb]; try done.
  intros _ _. unfold F32.add, SFadd. cbn [cond_Zopp]. cbn [Z.add].
  apply binary_round_nonneg.
Qed.

Lemma sum_nonneg (acc : f32) (xs : list f32) :
  sign_of acc ≠ Some true →
  Forall (λ x, sign_of x ≠ Some true) xs →
  sign_of (foldl F32.add acc xs) ≠ Some true.
Proof.
  revert acc. induction xs as [|x xs IH]; intros acc Hacc Hxs; simpl; [done|].
  apply Forall_cons in Hxs as [Hx Hxs]. apply IH; [|done]. by apply add_nonneg.
Qed.

Lemma div_nonneg (a b : f32) :
  sign_of a ≠ Some true → sign_of b ≠ Some true →
  sign_of (F32.div a b) ≠ Some true.
Proof.
  destruct a as [[]|[]| |[] ma ea], b as [[]|[]| |[] mb eb]; try done.
  intros _ _. unfold F32.div, SFdiv.
  destruct (SFdiv_core_binary _ _ _ _ _ _) as [[mz ez] lz].
  apply (binary_round_aux_sign F32.prec F32.emax false).
Qed.

Lemma of_nat_nonneg (n : nat) : sign_of (F32.of_nat n) ≠ Some true.
Proof.
  unfold F32.of_nat, F32.of_Z, F32.of_Z2, binary_normalize.
  destruct (Z.of_nat n) eqn:Hn; [done | apply binary_round_nonneg | lia].
Qed.

(** X11: whenever the loss is computed, its value is not negative: it is a
    NaN or a float without a negative sign, so it never compares below
    zero. *)
Theorem loss_never_negative (d : DQN) (g : rng) parts g' :
  qnet_loss_parts d g = Some (parts, g') →
  sign_of (data (lp_loss parts)) ≠ Some true
  ∧ SFltb (data (lp_loss parts)) F32.zero = false.
Proof.
  intros Hparts.
  assert (Hsign : sign_of (data (lp_loss parts)) ≠ Some true).
  { unfold qnet_loss_parts in Hparts.
    destruct (sample (exp_buf d) 100 g) as [[s g1]|]; [|done].
    cbn [mbind option_bind] in Hparts.
    destruct (bootstrap_targets d s) as [ys|]; [|done].
    cbn [mbind option_bind] in Hparts.
    destruct (predicted d s) as [qs|]; [|done].
    cbn [mbind option_bind] in Hparts.
    destruct (mse qs ys) as [loss|] eqn:Hmse; [|done].
    cbn [mbind option_bind] in Hparts.
    injection Hparts as <- <-. cbn [lp_loss].
    unfold mse in Hmse.
    destruct (zip_exact F32.sub (data qs) (data ys)) as [diffs|]; [|done].
    cbn [mbind option_bind] in Hmse. injection Hmse as <-. cbn [data].
    apply div_nonneg; [|apply of_nat_nonneg].
    apply sum_nonneg; [done|].
    apply Forall_fmap, Forall_forall. intros x _. apply mul_self_nonneg. }
  split; [done|]. by apply not_below_zero.
Qed.

Lemma loss_never_negative_witness :
  ∃ parts g',
    qnet_loss_parts dqn_half example_rng = Some (parts, g')
    ∧ data (lp_loss parts) = F32.of_Z 36
    ∧ SFltb (data (lp_loss parts)) F32.zero = false.
Proof.
  destruct (qnet_loss_parts dqn_half example_rng) as [[parts g']|] eqn:Hrun;
    [|vm_compute in Hrun; discriminate Hrun].
  destruct (loss_never_negative dqn_half example_rng parts g' Hrun) as [_ Hlt].
  exists parts, g'. split_and!; [reflexivity | | exact Hlt].
  pose proof Hrun as H. vm_compute in H. injection H as <- _.
  clear Hrun Hlt. reflexivity.
Defined.

(** * Further properties of evaluation *)

Lemma eval_episodes_appends (E : Env) (d : DQN) (fuel : nat) (render : bool)
    (iters : list nat) (rews : list f64) (e : env_state E) (g : rng)
    rews' e' g' :
  eval_episodes E d fuel render iters rews e g = Some (rews', e', g') →
  ∃ new, rews' = rews ++ new ∧ length new = length iters.
Proof.
  revert rews e g. induction iters as [|k iters IH]; intros rews e g; simpl.
  - intros [= <- <- <-]. exists []. by rewrite app_nil_r.
  - destruct (env_reset E e) as [obs e0].
    destruct (eval_episode E d fuel _ obs F64.zero _ g) as [[[tot e2] g1]|];
      [|done].
    cbn [mbind option_bind]. intros Hrest.
    destruct (IH _ _ _ Hrest) as (new & -> & Hlen).
    exists (tot :: new). split; [by rewrite <- app_assoc | simpl; lia].
Qed.

Lemma py_max_fold_spec (pre xs : list f64) (best : f64) :
  best ∈ pre →
  (∀ v, v ∈ pre → SFltb best v = false) →
  let w := foldl (λ m y, if SFltb m y then y else m) best xs in
  w ∈ pre ++ xs ∧ ∀ v, v ∈ pre ++ xs → SFltb w v = false.
Proof.
  revert pre best. induction xs as [|x xs IH]; intros pre best Hin Hpre; simpl.
  - by rewrite app_nil_r.
  - destruct (SFltb best x) eqn:Hx.
    + destruct (IH (pre ++ [x]) x) as (Hw & Hall).
      * apply elem_of_app. right. by apply list_elem_of_singleton.
      * intros v Hv. apply elem_of_app in Hv as [Hv|Hv].
        -- destruct (SFltb x v) eqn:Hxv; [|done].
           pose proof (Hpre v Hv) as Hbv.
           by rewrite (SFltb_trans best x v Hx Hxv) in Hbv.
        -- apply list_elem_of_singleton in Hv as ->. apply SFltb_irrefl.
      * rewrite <- app_assoc in Hw, Hall. eauto.
    + destruct (IH (pre ++ [x]) best) as (Hw & Hall).
      * apply elem_of_app. by left.
      * intros v Hv. apply elem_of_app in Hv as [Hv|Hv]; [eauto|].
        by apply list_elem_of_singleton in Hv as ->.
      * rewrite <- app_assoc in Hw, Hall. eauto.
Qed.

Lemma py_max_spec (xs : list f64) (m : f64) :
  py_max xs = Some m → m ∈ xs ∧ ∀ v, v ∈ xs → SFltb m v = false.
Proof.
  destruct xs as [|x xs]; [done|]. simpl. intros [= <-].
  apply (py_max_fold_spec [x] xs x).
  - by apply list_elem_of_singleton.
  - intros v Hv. apply list_elem_of_singleton in Hv as ->. apply SFltb_irrefl.
Qed.

(** X12: whenever [evaluate] returns, [times] was at least 1 (with
    [times = 0] it raises), it ran exactly [times] episodes, and it returns
    [statistics.mean] of their returns together with one of these returns
    that none of them exceeds. *)
Theorem evaluate_reports (E : Env) (mean : list f64 → option f64) (d : DQN)
    (fuel times : nat) (epsilon : f64) (render : bool)
    (e : env_state E) (g : rng) m mx e' g' :
  evaluate E mean d fuel times epsilon render e g = Some (m, mx, e', g') →
  1 ≤ times
  ∧ ∃ rews,
      eval_episodes E d fuel render (seq 0 times) [] e g = Some (rews, e', g')
      ∧ length rews = times
      ∧ mean rews = Some m
      ∧ mx ∈ rews
      ∧ ∀ v, v ∈ rews → SFltb mx v = false.
Proof.
  unfold evaluate. intros Hev.
  destruct (eval_episodes E d fuel render (seq 0 times) [] e g)
    as [[[rews e1] g1]|] eqn:Hrun; [|done].
  cbn [mbind option_bind] in Hev.
  destruct (mean rews) as [m0|] eqn:Hmean; [|done].
  cbn [mbind option_bind] in Hev.
  destruct (py_max rews) as [mx0|] eqn:Hmax; [|done].
  cbn [mbind option_bind] in Hev. injection Hev as <- <- <- <-.
  destruct (eval_episodes_appends _ _ _ _ _ _ _ _ _ _ _ Hrun) as (new & -> & Hlen).
  rewrite length_seq in Hlen. simpl in *.
  destruct (py_max_spec new mx0 Hmax) as [Hin Hall].
  split.
  - destruct new; [done | simpl in Hlen; lia].
  - exists new. split_and!; done.
Qed.

Lemma evaluate_reports_witness :
  ∃ m mx e' g',
    evaluate one_step_env sum_over_count dqn_half 10 3 eps_0_05 false 0 rng_half
    = Some (m, mx, e', g')
    ∧ 1 ≤ 3 ∧ mx = F64.of_Z 1.
Proof.
  assert (Hval : (λ r, r.1.1) <$> evaluate one_step_env sum_over_count dqn_half
                                    10 3 eps_0_05 false 0 rng_half
                 = Some (F64.of_Z 1, F64.of_Z 1)) by (vm_compute; reflexivity).
  apply fmap_Some in Hval as ([[[m mx] e'] g'] & Hrun & Heq).
  injection Heq as Hm Hmx. subst m mx.
  destruct (evaluate_reports _ _ _ _ _ _ _ _ _ _ _ _ _ Hrun) as [Ht _].
  exists (F64.of_Z 1), (F64.of_Z 1), e', g'.
  split_and!; [exact Hrun | exact Ht | reflexivity].
Defined.

(** * The training driver *)

Lemma choose_action_some (d : DQN) (obs : state) (epsilon : f64) (g : rng) :
  0 < num_actions d → length (forward (qnet d) obs) = num_actions d →
  ∃ a g', choose_action d obs epsilon g = Some (a, g') ∧ a < num_actions d.
Proof.
  intros Hn Hlen. unfold choose_action.
  destruct (random_random g) as [u g1]. destruct (SFltb u epsilon).
  - unfold random_choice_range. rewrite decide_False by lia.
    pose proof (randbelow_lt (num_actions d) g1 Hn) as Hlt.
    destruct (randbelow (num_actions d) g1) as [a g2]. eauto.
  - destruct (argmax_spec (forward (qnet d) obs)) as (a & best & Ha & Hbest & _).
    { intros Hnil. rewrite Hnil in Hlen. simpl in Hlen. lia. }
    rewrite Ha. simpl. exists a, g1. split; [done|].
    rewrite <- Hlen. by eapply lookup_lt_Some.
Qed.

Lemma trained_refl {E O} (st : Trainer E O) (first : nat) :
  trainable (tr_dqn st) → trained st st first 0.
Proof.
  intros ((Hshape & Hle & Hz) & Hsz & _). unfold trained.
  split_and!; try done.
  - rewrite Nat.add_0_r, Nat.mod_small; lia.
  - rewrite Nat.add_0_r. unfold valid_count. destruct (full _); lia.
  - exists []. by rewrite app_nil_r.
Qed.

Lemma trained_trans {E O} (st1 st2 st3 : Trainer E O) (first n1 n2 : nat) :
  trained st1 st2 first n1 → trained st2 st3 (first + n1) n2 →
  trained st1 st3 first (n1 + n2).
Proof.
  unfold trained.
  intros (He & Hn & Ha & Hg & Hs & Hi & Hv & new1 & Hl1 & Ht1)
         (He' & Hn' & Ha' & Hg' & Hs' & Hi' & Hv' & new2 & Hl2 & Ht2).
  split_and!; try congruence.
  - rewrite Hi', Hi, Hs. rewrite Nat.Div0.add_mod_idemp_l. f_equal. lia.
  - rewrite Hv', Hv, Hs. lia.
  - exists (new1 ++ new2). split.
    + by rewrite Hl2, Hl1, app_assoc.
    + rewrite fmap_app, Ht1, Ht2, He, Hn, seq_app, fmap_app. done.
Qed.

(** The checked conversion at the edge of the binary32 range: the largest
    binary32 value and the infinities pass, [2^128] raises. *)
Lemma f32_of_f64_range :
  f32_of_f64 f32_max = Some (F32.of_Z2 (2 ^ 24 - 1) 104)
  ∧ f32_of_f64 (F64.of_Z2 1 128) = None
  ∧ f32_of_f64 (F64.of_Z2 (-1) 128) = None
  ∧ f32_of_f64 (S754_infinity false) = Some (S754_infinity false)
  ∧ f32_of_f64 S754_nan = Some S754_nan.
Proof. vm_compute. repeat split. Qed.

Lemma stored_rows_shaped (n_obs : nat) (b : ExperienceBuffer) (t : transition) :
  rows_shaped n_obs b →
  length (t_init_state t) = n_obs → length (t_next_state t) = n_obs →
  rows_shaped n_obs (stored b t).
Proof.
  intros [H1 H2] Hi Hn. unfold rows_shaped, stored; cbn.
  split; by apply Forall_insert.
Qed.

(** One training step in a trainable state: the action is in range, and the
    step raises exactly when the reward does not fit a float32 array;
    otherwise it leaves the learner trainable and is one step of training,
    which stores the transition just seen. *)
Lemma train_step_cases (E : Env) (O : Optimizer) (n0 : nat) (obs : state)
    (st : Trainer E O) :
  keeps_width O → trainable (tr_dqn st) →
  ∃ act, act < num_actions (tr_dqn st) ∧
    let out := env_step E (tr_env st) act in
    match f32_of_f64 out.1.1.2 with
    | None => train_step E O n0 obs st = None
    | Some r =>
        ∃ st',
          train_step E O n0 obs st = Some (out.1.1.1, out.1.2, st')
          ∧ trainable (tr_dqn st')
          ∧ trained st st' n0 1
          ∧ exp_buf (tr_dqn st')
            = stored (exp_buf (tr_dqn st))
                (Transition obs act r out.1.1.1 out.1.2)
    end.
Proof.
  intros HO (Hwf & Hsz & Hn & Hnet & Hact).
  assert (Hlt : i (exp_buf (tr_dqn st)) < size (exp_buf (tr_dqn st))).
  { destruct Hwf as (_ & Hle & Hz). lia. }
  unfold train_step.
  destruct (choose_action_some (tr_dqn st) obs eps_0_05 (tr_py_rng st) Hn (Hnet obs))
    as (act & g1 & Hact1 & Hact_lt).
  exists act. split; [exact Hact_lt|].
  rewrite Hact1. cbn [mbind option_bind].
  destruct (env_step E (tr_env st) act) as [[[obs' rew] done] e1].
  cbn [fst snd]. destruct (f32_of_f64 rew) as [r|]; [|reflexivity].
  cbn [mbind option_bind].
  set (t := Transition obs act r obs' done).
  rewrite (store_stored _ t) by (done || apply Hwf). cbn [mbind option_bind].
  set (d1 := with_exp_buf (tr_dqn st) (stored (exp_buf (tr_dqn st)) t)).
  assert (Hact' : Forall (λ a, a < num_actions d1) (actions (exp_buf d1))).
  { unfold d1, stored; cbn. by apply Forall_insert. }
  assert (Hwf' : wf (exp_buf d1)) by by apply stored_wf.
  destruct (qnet_loss_parts_total d1 (tr_np_rng st) Hwf' Hn Hnet Hact')
    as (parts & g2 & Hparts & _).
  rewrite Hparts. cbn [mbind option_bind].
  pose proof (HO (tr_opt st) d1 parts Hnet) as Hwidth.
  destruct (opt_update O (tr_opt st) d1 parts) as [net' o'].
  eexists. split; [reflexivity|]. split; [|split].
  - unfold trainable; cbn. split_and!; done.
  - unfold trained; cbn [tr_dqn tr_log]. cbn.
    split_and!; try done.
    + by apply stored_cursor.
    + rewrite Nat.add_1_r. by apply stored_valid_count.
    + eexists. split; [reflexivity|]. done.
  - reflexivity.
Qed.

(** What a training step that returned has done; in an environment that
    fits, the next observation and the store keep the row shape. *)
Lemma train_step_result (E : Env) (O : Optimizer) (n0 : nat) (obs obs' : state)
    (done : bool) (st st' : Trainer E O) :
  keeps_width O → trainable (tr_dqn st) →
  train_step E O n0 obs st = Some (obs', done, st') →
  trainable (tr_dqn st')
  ∧ trained st st' n0 1
  ∧ ∀ n_obs,
      env_fits E n_obs (num_actions (tr_dqn st)) →
      length obs = n_obs → rows_shaped n_obs (exp_buf (tr_dqn st)) →
      length obs' = n_obs ∧ rows_shaped n_obs (exp_buf (tr_dqn st')).
Proof.
  intros HO Hok Hrun.
  destruct (train_step_cases E O n0 obs st HO Hok) as (act & Hlt & Hcases).
  cbn zeta in Hcases.
  destruct (f32_of_f64 (env_step E (tr_env st) act).1.1.2) as [r|];
    [|congruence].
  destruct Hcases as (st2 & Hrun2 & Hok2 & Htr & Hbuf).
  rewrite Hrun in Hrun2. injection Hrun2 as -> -> ->.
  split; [exact Hok2|]. split; [exact Htr|].
  intros n_obs [_ Hstep] Hobs Hrows.
  destruct (Hstep (tr_env st) act Hlt) as [Hlen _].
  split; [exact Hlen|]. rewrite Hbuf. by apply stored_rows_shaped.
Qed.

(** In an environment that fits, a training step returns. *)
Lemma train_step_total (E : Env) (O : Optimizer) (n0 n_obs : nat) (obs : state)
    (st : Trainer E O) :
  keeps_width O → trainable (tr_dqn st) →
  env_fits E n_obs (num_actions (tr_dqn st)) →
  is_Some (train_step E O n0 obs st).
Proof.
  intros HO Hok [_ Hstep].
  destruct (train_step_cases E O n0 obs st HO Hok) as (act & Hlt & Hcases).
  cbn zeta in Hcases.
  destruct (Hstep (tr_env st) act Hlt) as [_ [r Hr]].
  rewrite Hr in Hcases. destruct Hcases as (st' & -> & _). eauto.
Qed.

Lemma train_episode_result (E : Env) (O : Optimizer) (k n0 n0' : nat)
    (obs : state) (st st' : Trainer E O) :
  keeps_width O → trainable (tr_dqn st) →
  train_episode E O k n0 obs st = Some (n0', st') →
  trainable (tr_dqn st')
  ∧ n0 ≤ n0' ≤ n0 + k ∧ (0 < k → n0 < n0')
  ∧ trained st st' n0 (n0' - n0)
  ∧ ∀ n_obs,
      env_fits E n_obs (num_actions (tr_dqn st)) →
      length obs = n_obs → rows_shaped n_obs (exp_buf (tr_dqn st)) →
      rows_shaped n_obs (exp_buf (tr_dqn st')).
Proof.
  intros HO. revert n0 obs st.
  induction k as [|k IH]; intros n0 obs st Hok Hrun; cbn [train_episode] in Hrun.
  - injection Hrun as <- <-. split_and!; try done; try lia.
    rewrite Nat.sub_diag. by apply trained_refl.
  - destruct (train_step E O n0 obs st) as [[[obs' done] st1]|] eqn:Hstep;
      [|discriminate Hrun].
    cbn [mbind option_bind] in Hrun.
    destruct (train_step_result E O n0 obs obs' done st st1 HO Hok Hstep)
      as (Hok1 & Htr1 & Hshape1).
    destruct done.
    + injection Hrun as <- <-. split_and!; try done; try lia.
      * by replace (n0 + 1 - n0) with 1 by lia.
      * intros n_obs Hfit Hobs Hrows. by apply (Hshape1 n_obs).
    + destruct (IH (n0 + 1) obs' st1 Hok1 Hrun) as (Hok' & Hi & _ & Htr & Hshape).
      split_and!; try done; try lia.
      * replace (n0' - n0) with (1 + (n0' - (n0 + 1))) by lia.
        eapply trained_trans; [exact Htr1 | exact Htr].
      * intros n_obs Hfit Hobs Hrows.
        destruct (Hshape1 n_obs Hfit Hobs Hrows) as [Hobs' Hrows'].
        apply (Hshape n_obs); try done.
        destruct Htr1 as (_ & _ & -> & _). exact Hfit.
Qed.

Lemma train_episode_total (E : Env) (O : Optimizer) (k n0 n_obs : nat)
    (obs : state) (st : Trainer E O) :
  keeps_width O → trainable (tr_dqn st) →
  env_fits E n_obs (num_actions (tr_dqn st)) →
  is_Some (train_episode E O k n0 obs st).
Proof.
  intros HO. revert n0 obs st.
  induction k as [|k IH]; intros n0 obs st Hok Hfit; cbn [train_episode].
  - eauto.
  - destruct (train_step_total E O n0 n_obs obs st HO Hok Hfit)
      as [[[obs' done] st1] Hstep].
    rewrite Hstep. cbn [mbind option_bind].
    destruct (train_step_result E O n0 obs obs' done st st1 HO Hok Hstep)
      as (Hok1 & Htr1 & _).
    destruct done; [eauto|].
    apply IH; [exact Hok1|].
    destruct Htr1 as (_ & _ & -> & _). exact Hfit.
Qed.

Lemma train_episodes_result (E : Env) (O : Optimizer) (fuel n0 : nat)
    (st st' : Trainer E O) :
  keeps_width O → trainable (tr_dqn st) →
  n0 ≤ epoch_steps (tr_dqn st) →
  train_episodes E O fuel n0 st = Some st' →
  trainable (tr_dqn st')
  ∧ trained st st' n0 (epoch_steps (tr_dqn st) - n0)
  ∧ ∀ n_obs,
      env_fits E n_obs (num_actions (tr_dqn st)) →
      rows_shaped n_obs (exp_buf (tr_dqn st)) →
      rows_shaped n_obs (exp_buf (tr_dqn st')).
Proof.
  intros HO. revert n0 st.
  induction fuel as [|fuel IH]; intros n0 st Hok Hi Hrun;
    cbn [train_episodes] in Hrun.
  - case_decide as Hlt; [done|]. injection Hrun as <-. split_and!; try done.
    replace (epoch_steps (tr_dqn st) - n0) with 0 by lia. by apply trained_refl.
  - case_decide as Hlt.
    + destruct (env_reset E (tr_env st)) as [obs e0] eqn:Hreset.
      set (st0 := {| tr_dqn := tr_dqn st; tr_env := warm_up E e0;
                     tr_opt := tr_opt st; tr_py_rng := tr_py_rng st;
                     tr_np_rng := tr_np_rng st; tr_log := tr_log st |}) in Hrun.
      destruct (train_episode E O (epoch_steps (tr_dqn st) - n0) n0 obs st0)
        as [[n0' st1]|] eqn:Hep; [|done].
      cbn [mbind option_bind] in Hrun.
      destruct (train_episode_result E O _ n0 n0' obs st0 st1 HO Hok Hep)
        as (Hok1 & Hi' & Hprog & Htr1 & Hshape1).
      assert (Hsteps : epoch_steps (tr_dqn st1) = epoch_steps (tr_dqn st)).
      { by destruct Htr1 as (_ & ? & _). }
      assert (Hacts : num_actions (tr_dqn st1) = num_actions (tr_dqn st)).
      { by destruct Htr1 as (_ & _ & ? & _). }
      destruct (IH n0' st1 Hok1) as (Hok' & Htr & Hshape); [lia | exact Hrun |].
      split_and!; try done.
      * replace (epoch_steps (tr_dqn st) - n0)
          with ((n0' - n0) + (epoch_steps (tr_dqn st1) - n0')) by lia.
        eapply (trained_trans st st1 st'); [exact Htr1|].
        by replace (n0 + (n0' - n0)) with n0' by lia.
      * intros n_obs Hfit Hrows. apply (Hshape n_obs).
        -- by rewrite Hacts.
        -- apply (Hshape1 n_obs); try done.
           destruct Hfit as [Hres _]. specialize (Hres (tr_env st)).
           by rewrite Hreset in Hres.
    + injection Hrun as <-. split_and!; try done.
      replace (epoch_steps (tr_dqn st) - n0) with 0 by lia. by apply trained_refl.
Qed.

Lemma train_episodes_total (E : Env) (O : Optimizer) (fuel n0 n_obs : nat)
    (st : Trainer E O) :
  keeps_width O → trainable (tr_dqn st) →
  env_fits E n_obs (num_actions (tr_dqn st)) →
  n0 ≤ epoch_steps (tr_dqn st) → epoch_steps (tr_dqn st) - n0 ≤ fuel →
  is_Some (train_episodes E O fuel n0 st).
Proof.
  intros HO. revert n0 st.
  induction fuel as [|fuel IH]; intros n0 st Hok Hfit Hi Hfuel;
    cbn [train_episodes].
  - rewrite decide_False by lia. eauto.
  - case_decide as Hlt; [|eauto].
    destruct (env_reset E (tr_env st)) as [obs e0].
    set (st0 := {| tr_dqn := tr_dqn st; tr_env := warm_up E e0;
                   tr_opt := tr_opt st; tr_py_rng := tr_py_rng st;
                   tr_np_rng := tr_np_rng st; tr_log := tr_log st |}).
    destruct (train_episode_total E O (epoch_steps (tr_dqn st) - n0) n0 n_obs
                obs st0 HO Hok Hfit) as [[n0' st1] Hep].
    rewrite Hep. cbn [mbind option_bind].
    destruct (train_episode_result E O _ n0 n0' obs st0 st1 HO Hok Hep)
      as (Hok1 & Hi' & Hprog & Htr1 & _).
    destruct Htr1 as (_ & Hsteps & Hacts & _). cbn [tr_dqn st0] in Hsteps, Hacts.
    apply IH; [exact Hok1 | by rewrite Hacts | lia | lia].
Qed.

(** X13: in a trainable state, with an optimizer that keeps the number of
    outputs, and in an environment that fits the learner (its observations
    have the row shape of the store, and the rewards it pays for the
    learner's actions are accepted by a float32 array), the training part of
    [train_epoch] completes: no [store], action choice or loss computation
    raises, and the nested loops end after exactly [epoch_steps] steps.  The
    learner stays trainable, the store keeps its row shape, and the only way
    left for [train_epoch] to fail is for the evaluation that follows to
    fail. *)
Theorem training_phase_completes (E : Env) (O : Optimizer)
    (mean : list f64 → option f64) (eval_fuel n_obs : nat) (st : Trainer E O) :
  keeps_width O → trainable (tr_dqn st) →
  env_fits E n_obs (num_actions (tr_dqn st)) →
  rows_shaped n_obs (exp_buf (tr_dqn st)) →
  ∃ st1,
    train_episodes E O (epoch_steps (tr_dqn st)) 0
      {| tr_dqn := with_epoch (tr_dqn st) (epoch (tr_dqn st) + 1);
         tr_env := tr_env st; tr_opt := tr_opt st;
         tr_py_rng := tr_py_rng st; tr_np_rng := tr_np_rng st;
         tr_log := tr_log st |} = Some st1
    ∧ trainable (tr_dqn st1)
    ∧ rows_shaped n_obs (exp_buf (tr_dqn st1))
    ∧ length (tr_log st1) = length (tr_log st) + epoch_steps (tr_dqn st)
    ∧ (is_Some (train_epoch E O mean eval_fuel st)
       ↔ is_Some (evaluate E mean (tr_dqn st1) eval_fuel 20 eps_0_05 true
                    (tr_env st1) (tr_py_rng st1))).
Proof.
  intros HO Hok Hfit Hrows.
  set (st0 := {| tr_dqn := with_epoch (tr_dqn st) (epoch (tr_dqn st) + 1);
                 tr_env := tr_env st; tr_opt := tr_opt st;
                 tr_py_rng := tr_py_rng st; tr_np_rng := tr_np_rng st;
                 tr_log := tr_log st |}).
  assert (Hok0 : trainable (tr_dqn st0)) by exact Hok.
  assert (Hfit0 : env_fits E n_obs (num_actions (tr_dqn st0))) by exact Hfit.
  destruct (train_episodes_total E O (epoch_steps (tr_dqn st)) 0 n_obs st0
              HO Hok0 Hfit0) as [st1 Hrun]; [cbn; lia | cbn; lia |].
  destruct (train_episodes_result E O (epoch_steps (tr_dqn st)) 0 st0 st1
              HO Hok0) as (Hok1 & Htr & Hshape); [cbn; lia | exact Hrun |].
  exists st1. split_and!; try done.
  - by apply (Hshape n_obs).
  - destruct Htr as (_ & _ & _ & _ & _ & _ & _ & new & Hlog & Htags).
    rewrite Hlog, length_app. cbn [tr_log st0]. f_equal.
    apply (f_equal length) in Htags.
    rewrite !length_fmap, length_seq in Htags. rewrite Htags. cbn. lia.
  - unfold train_epoch. fold st0.
    change (epoch_steps (with_epoch (tr_dqn st) (epoch (tr_dqn st) + 1)))
      with (epoch_steps (tr_dqn st)).
    rewrite Hrun. cbn [mbind option_bind].
    destruct (evaluate E mean (tr_dqn st1) eval_fuel 20 eps_0_05 true
                (tr_env st1) (tr_py_rng st1)) as [[[[m mx] e'] g']|];
      cbn [mbind option_bind]; split; intros [? ?]; try done; eauto.
Qed.

Lemma idle_optimizer_keeps_width : keeps_width idle_optimizer.
Proof. intros o d parts Hw x. exact (Hw x). Defined.

Lemma example_trainer_trainable : trainable (tr_dqn example_trainer).
Proof.
  unfold trainable. split_and!.
  - unfold wf, shape_ok. vm_compute. repeat split; lia.
  - vm_compute. lia.
  - vm_compute. lia.
  - intros x. reflexivity.
  - vm_compute. repeat constructor.
Defined.

Lemma one_step_env_fits : env_fits one_step_env 1 2.
Proof.
  split; [reflexivity|]. intros e a Ha. split; [reflexivity|].
  destruct a as [|[|a]]; [by eexists | by eexists | lia].
Defined.

Lemma example_trainer_rows :
  rows_shaped 1 (exp_buf (tr_dqn example_trainer)).
Proof. split; repeat constructor. Defined.

Lemma training_phase_completes_witness :
  keeps_width idle_optimizer ∧ trainable (tr_dqn example_trainer)
  ∧ env_fits one_step_env 1 (num_actions (tr_dqn example_trainer))
  ∧ rows_shaped 1 (exp_buf (tr_dqn example_trainer))
  ∧ ∃ st1,
      train_episodes one_step_env idle_optimizer 3 0
        {| tr_dqn := with_epoch (tr_dqn example_trainer) 1;
           tr_env := tr_env example_trainer; tr_opt := tr_opt example_trainer;
           tr_py_rng := tr_py_rng example_trainer;
           tr_np_rng := tr_np_rng example_trainer;
           tr_log := tr_log example_trainer |} = Some st1
      ∧ rows_shaped 1 (exp_buf (tr_dqn st1))
      ∧ length (tr_log st1) = 3.
Proof.
  split; [exact idle_optimizer_keeps_width|].
  split; [exact example_trainer_trainable|].
  split; [exact one_step_env_fits|].
  split; [exact example_trainer_rows|].
  destruct (training_phase_completes one_step_env idle_optimizer sum_over_count
              10 1 example_trainer idle_optimizer_keeps_width
              example_trainer_trainable one_step_env_fits example_trainer_rows)
    as (st1 & Hrun & _ & Hrows & Hlen & _).
  exists st1. split; [exact Hrun|]. split; [exact Hrows | exact Hlen].
Defined.

(** X14: whatever a completed [train_epoch] call started from (trainable,
    optimizer keeping the number of outputs), afterwards the learner is
    trainable again, the epoch counter is one higher, the settings are
    unchanged, the store has taken exactly [epoch_steps] transitions, and
    the writer has received [epoch_steps] loss records, numbered
    consecutively from [epoch * epoch_steps] (the old [epoch]), followed by
    the mean and the maximum evaluation reward, both at the new epoch
    number. *)
Theorem train_epoch_result (E : Env) (O : Optimizer)
    (mean : list f64 → option f64) (eval_fuel : nat) (st st' : Trainer E O) :
  keeps_width O → trainable (tr_dqn st) →
  train_epoch E O mean eval_fuel st = Some st' →
  let d := tr_dqn st in
  let d' := tr_dqn st' in
  trainable d'
  ∧ epoch d' = epoch d + 1
  ∧ epoch_steps d' = epoch_steps d ∧ num_actions d' = num_actions d
  ∧ gamma d' = gamma d ∧ size (exp_buf d') = size (exp_buf d)
  ∧ i (exp_buf d') = (i (exp_buf d) + epoch_steps d) mod size (exp_buf d)
  ∧ valid_count (exp_buf d')
    = (valid_count (exp_buf d) + epoch_steps d) `min` size (exp_buf d)
  ∧ ∃ losses m mx,
      tr_log st' = tr_log st ++ losses
                   ++ [(MeanEvalReward, m, epoch d + 1);
                       (MaxEvalReward, mx, epoch d + 1)]
      ∧ (λ r, (r.1.1, r.2)) <$> losses
        = (λ j, (LossTag, j + epoch d * epoch_steps d))
          <$> seq 0 (epoch_steps d).
Proof.
  intros HO Hok Hrun.
  set (st0 := {| tr_dqn := with_epoch (tr_dqn st) (epoch (tr_dqn st) + 1);
                 tr_env := tr_env st; tr_opt := tr_opt st;
                 tr_py_rng := tr_py_rng st; tr_np_rng := tr_np_rng st;
                 tr_log := tr_log st |}).
  assert (Hok0 : trainable (tr_dqn st0)) by exact Hok.
  unfold train_epoch in Hrun. fold st0 in Hrun.
  change (epoch_steps (with_epoch (tr_dqn st) (epoch (tr_dqn st) + 1)))
    with (epoch_steps (tr_dqn st)) in Hrun.
  destruct (train_episodes E O (epoch_steps (tr_dqn st)) 0 st0)
    as [st1|] eqn:Htrain; [|done].
  destruct (train_episodes_result E O (epoch_steps (tr_dqn st)) 0 st0 st1
              HO Hok0) as (Hok1 & Htr & _); [cbn; lia | exact Htrain |].
  cbn [mbind option_bind] in Hrun.
  destruct (evaluate E mean (tr_dqn st1) eval_fuel 20 eps_0_05 true
              (tr_env st1) (tr_py_rng st1)) as [[[[m mx] e'] g']|]; [|done].
  cbn [mbind option_bind] in Hrun. injection Hrun as <-. cbn [tr_dqn tr_log].
  destruct Htr as (He & Hn & Ha & Hg & Hs & Hi & Hv & new & Hlog & Htags).
  cbn [tr_dqn tr_log st0] in *. cbn in He, Hn, Ha, Hg, Hs, Hi, Hv, Htags.
  rewrite Nat.sub_0_r in Hi, Hv, Htags.
  split_and!; try done.
  exists new, m, mx. split.
  - rewrite Hlog, He. by rewrite <- app_assoc.
  - rewrite Htags. apply list_fmap_ext. intros _ j _.
    by replace (epoch (tr_dqn st) + 1 - 1) with (epoch (tr_dqn st)) by lia.
Qed.

Lemma train_epoch_result_witness :
  keeps_width idle_optimizer ∧ trainable (tr_dqn example_trainer)
  ∧ ∃ st',
      train_epoch one_step_env idle_optimizer sum_over_count 10 example_trainer
      = Some st'
      ∧ epoch (tr_dqn st') = 1
      ∧ i (exp_buf (tr_dqn st')) = 1
      ∧ valid_count (exp_buf (tr_dqn st')) = 2.
Proof.
  split; [exact idle_optimizer_keeps_width|].
  split; [exact example_trainer_trainable|].
  assert (Hval : (λ st', length (tr_log st'))
                   <$> train_epoch one_step_env idle_optimizer sum_over_count 10
                         example_trainer
                 = Some 5) by (vm_compute; reflexivity).
  apply fmap_Some in Hval as (st' & Hrun & _).
  destruct (train_epoch_result one_step_env idle_optimizer sum_over_count 10
              example_trainer st' idle_optimizer_keeps_width
              example_trainer_trainable Hrun)
    as (_ & He & _ & _ & _ & _ & Hi & Hv & _).
  exists st'. split_and!; [exact Hrun | exact He | exact Hi | exact Hv].
Defined.
